(** * py4DSTEM: point lists and arrays of point lists

    A shallow embedding of [py4DSTEM/process/datastructure/pointlist.py]:
    the class [PointList] (a structured numpy array with a row counter) and
    the class [PointListArray] (a two-dimensional arrangement of point lists).

    Python objects are mutable and passed by reference, so point lists live in
    a store and the methods are computations in a state-and-exception monad
    over that store.  A raised exception keeps the store as it was at the
    moment of the raise, which is what a caller catching it observes.

    The numbers handed to the methods are Python integers.  A field of type
    [int] holds them as [int64] and one of type [float] as [float64], so a
    record holds integers: a number outside [int64] is rejected by an
    integer field, and a float field stores the nearest [float64].  Fractions,
    infinities and NaN are outside the model.  Numpy's operations are
    modelled by what they compute on one-dimensional arrays of records.
    The base class [DataObject] and the keyword arguments handed on to it
    serve saving and logging only and are left out. *)

From Stdlib Require Import ZArith Lia.
From stdpp Require Import base list strings sorting.

Set Warnings "-register-all".

(** ** Values, types and exceptions *)

(** The values a point is made of and the values held in the fields of a
    record: an integer, or a tuple, which a field whose type is itself
    structured holds as a nested record. *)
Inductive value : Type :=
  | VNum (z : Z)
  | VTuple (vs : list value).

(** The scalar types: [Float] is [float64], the meaning of the Python type
    [float] as a dtype, and [Int] is [int64], the meaning of [int] on Linux
    and macOS and, from numpy 2, on every platform. *)
Inductive scalar_kind : Type := Float | Int.

(** A numpy [dtype]: a scalar type or a structured type with named fields. *)
Inductive np_dtype : Type :=
  | Scalar (k : scalar_kind)
  | Struct (fields : list (string * np_dtype)).

Abbreviation fields_t := (list (string * np_dtype)).
Abbreviation row := (list value).

Inductive exn : Type :=
  | AssertionError
  | IndexError
  | TypeError
  | ValueError
  | OverflowError
  | DanglingRef. (* an address outside the store; no Python program produces it *)

Inductive res (A : Type) : Type :=
  | Ret (a : A)
  | Raise (e : exn).
Arguments Ret {A} a.
Arguments Raise {A} e.

#[global] Instance res_ret : MRet res := λ A a, Ret a.

#[global] Instance res_bind : MBind res := λ A B f r,
  match r with
  | Ret a => f a
  | Raise e => Raise e
  end.

#[global] Instance res_fmap : FMap res := λ A B f r,
  match r with
  | Ret a => Ret (f a)
  | Raise e => Raise e
  end.

(** Induction on dtypes that reaches the types of the fields. *)
Fixpoint np_dtype_fields_ind (P : np_dtype → Prop)
    (Hscalar : ∀ k, P (Scalar k))
    (Hstruct : ∀ fs, Forall (λ f, P f.2) fs → P (Struct fs))
    (t : np_dtype) {struct t} : P t :=
  match t with
  | Scalar k => Hscalar k
  | Struct fs =>
      Hstruct fs
        ((fix go (fs : fields_t) : Forall (λ f, P f.2) fs :=
            match fs with
            | [] => Forall_nil_2 _
            | (n, t') :: fs' =>
                Forall_cons_2 (λ f, P f.2) (n, t') fs'
                  (np_dtype_fields_ind P Hscalar Hstruct t') (go fs')
            end) fs)
  end.

(** Induction on values that reaches the items of a tuple. *)
Fixpoint value_items_ind (P : value → Prop)
    (Hnum : ∀ z, P (VNum z))
    (Htuple : ∀ vs, Forall P vs → P (VTuple vs))
    (v : value) {struct v} : P v :=
  match v with
  | VNum z => Hnum z
  | VTuple vs =>
      Htuple vs
        ((fix go (vs : list value) : Forall P vs :=
            match vs with
            | [] => Forall_nil_2 _
            | x :: vs' => Forall_cons_2 P x vs' (value_items_ind P Hnum Htuple x) (go vs')
            end) vs)
  end.

Definition scalar_kind_eqb (a b : scalar_kind) : bool :=
  match a, b with
  | Float, Float | Int, Int => true
  | _, _ => false
  end.

(** [==] on dtypes: same field names and field types, in the same order. *)
Fixpoint dtype_eqb (a b : np_dtype) {struct a} : bool :=
  match a, b with
  | Scalar k, Scalar k' => scalar_kind_eqb k k'
  | Struct fs, Struct gs =>
      (fix go (fs gs : fields_t) {struct fs} : bool :=
         match fs, gs with
         | [], [] => true
         | (n, t) :: fs', (m, u) :: gs' =>
             bool_decide (n = m) && dtype_eqb t u && go fs' gs'
         | _, _ => false
         end) fs gs
  | _, _ => false
  end.

(** The [float64] nearest to the integer [z], as the conversion of a Python
    integer to a float computes it: [z] itself when it has at most 53
    significant bits, else [z] rounded to 53 significant bits, a tie going
    to the even significand; [None] when the result is beyond the largest
    [float64], where the conversion raises [OverflowError]. *)
Definition float_of_int (z : Z) : option Z :=
  let a := Z.abs z in
  let e := (Z.log2 a - 52)%Z in
  if (e <=? 0)%Z then Some z
  else
    let q := Z.shiftr a e in
    let r := Z.land a (Z.ones e) in
    let half := Z.shiftl 1 (e - 1) in
    let q' := if (half <? r)%Z || ((r =? half)%Z && Z.odd q) then (q + 1)%Z else q in
    let m := Z.shiftl q' e in
    if (Z.log2 m <? 1024)%Z then Some (Z.sgn z * m)%Z else None.

(** What a scalar field stores for the Python integer [z]. *)
Definition np_scalar (k : scalar_kind) (z : Z) : res Z :=
  match k with
  | Int => if ((- 2 ^ 63 <=? z) && (z <? 2 ^ 63))%Z then Ret z else Raise OverflowError
  | Float =>
      match float_of_int z with
      | Some x => Ret x
      | None => Raise OverflowError
      end
  end.

(** Conversion of a Python value to an element of type [t], as
    [np.array(v, dtype=t)] does for one element: a number fills a scalar
    ([OverflowError] when the scalar cannot hold it), a tuple fills a
    structure field by field, from the first field on, and must have as many
    items as the structure has fields, a number assigned to a structure is
    assigned to each of its fields, and a tuple does not convert to a
    scalar. *)
Fixpoint coerce (t : np_dtype) (v : value) {struct t} : res value :=
  match t with
  | Scalar k =>
      match v with
      | VNum z => VNum <$> np_scalar k z
      | VTuple _ => Raise ValueError
      end
  | Struct fs =>
      match v with
      | VNum z =>
          VTuple <$>
          (fix fill (fs : fields_t) : res (list value) :=
             match fs with
             | [] => Ret []
             | (_, t') :: fs' =>
                 match coerce t' (VNum z) with
                 | Ret x =>
                     match fill fs' with
                     | Ret xs => Ret (x :: xs)
                     | Raise e => Raise e
                     end
                 | Raise e => Raise e
                 end
             end) fs
      | VTuple vs =>
          if length vs =? length fs then
            VTuple <$>
            (fix fieldwise (fs : fields_t) (vs : list value) : res (list value) :=
               match fs, vs with
               | [], [] => Ret []
               | (_, t') :: fs', x :: vs' =>
                   match coerce t' x with
                   | Ret y =>
                       match fieldwise fs' vs' with
                       | Ret ys => Ret (y :: ys)
                       | Raise e => Raise e
                       end
                   | Raise e => Raise e
                   end
               | _, _ => Raise ValueError
               end) fs vs
          else Raise ValueError
      end
  end.

(** [np.array(point, dtype=fields)] for a tuple [point]: one record. *)
Definition np_array (point : list value) (fields : fields_t) : res row :=
  match coerce (Struct fields) (VTuple point) with
  | Ret (VTuple r) => Ret r
  | Ret (VNum _) => Raise ValueError
  | Raise e => Raise e
  end.

(** The three-way comparison of field values that numpy's sort uses:
    numbers by their order, records field after field. *)
Fixpoint value_compare (a b : value) {struct a} : comparison :=
  match a, b with
  | VNum x, VNum y => Z.compare x y
  | VNum _, VTuple _ => Lt
  | VTuple _, VNum _ => Gt
  | VTuple xs, VTuple ys =>
      (fix lex (xs ys : list value) {struct xs} : comparison :=
         match xs, ys with
         | [], [] => Eq
         | [], _ :: _ => Lt
         | _ :: _, [] => Gt
         | x :: xs', y :: ys' =>
             match value_compare x y with
             | Eq => lex xs' ys'
             | c => c
             end
         end) xs ys
  end.

Definition row_compare (a b : row) : comparison :=
  value_compare (VTuple a) (VTuple b).

(** ** Python and numpy primitives on sequences *)

(** [l[i]] for a Python list and an integer [i]: a negative index counts
    from the end, and an index outside [-len(l), len(l)) raises [IndexError]. *)
Definition py_index {A : Type} (l : list A) (i : Z) : res A :=
  let n := Z.of_nat (length l) in
  let k := if (i <? 0)%Z then (n + i)%Z else i in
  if ((0 <=? k) && (k <? n))%Z then
    match l !! Z.to_nat k with
    | Some x => Ret x
    | None => Raise IndexError
    end
  else Raise IndexError.

(** [mask.nonzero()[0]]: the positions of the true entries, ascending. *)
Fixpoint nonzero_from (k : nat) (mask : list bool) : list nat :=
  match mask with
  | [] => []
  | b :: mask' =>
      if b then k :: nonzero_from (S k) mask' else nonzero_from (S k) mask'
  end.

Definition nonzero (mask : list bool) : list nat := nonzero_from 0 mask.

(** The elements of [arr] whose position, counted from [k], is not in [idxs]. *)
Fixpoint delete_from {A : Type} (k : nat) (arr : list A) (idxs : list nat) : list A :=
  match arr with
  | [] => []
  | x :: arr' =>
      if bool_decide (k ∈ idxs) then delete_from (S k) arr' idxs
      else x :: delete_from (S k) arr' idxs
  end.

(** [np.delete(arr, idxs)] for an array of non-negative integer positions:
    the elements at these positions are left out, and an out-of-bounds
    position raises [IndexError] before anything is built (numpy 1.19 and
    later; earlier versions warned and ignored such a position). *)
Definition np_delete {A : Type} (arr : list A) (idxs : list nat) : res (list A) :=
  if forallb (λ i, i <? length arr) idxs then Ret (delete_from 0 arr idxs)
  else Raise IndexError.

(** The position of a field name in [dtype.names]. *)
Fixpoint field_index (name : string) (names : list string) : option nat :=
  match names with
  | [] => None
  | n :: names' =>
      if bool_decide (n = name) then Some 0 else S <$> field_index name names'
  end.

(** The key [np.sort(a, order=name)] compares records by: the named field
    first, then the remaining fields in the order of the dtype. *)
Definition sort_key (k : nat) (r : row) : row :=
  match r !! k with
  | Some v => v :: take k r ++ drop (S k) r
  | None => r
  end.

Definition key_leb (k : nat) (a b : row) : bool :=
  match row_compare (sort_key k a) (sort_key k b) with
  | Gt => false
  | _ => true
  end.

Fixpoint insert_sorted (k : nat) (x : row) (l : list row) : list row :=
  match l with
  | [] => [x]
  | y :: l' => if key_leb k x y then x :: l else y :: insert_sorted k x l'
  end.

(** [np.sort(a, order=name)] with [k] the position of [name].  Records that
    compare equal agree on every field, so the sorted sequence does not
    depend on the sorting algorithm; insertion sort computes it. *)
Fixpoint np_sort (k : nat) (a : list row) : list row :=
  match a with
  | [] => []
  | x :: a' => insert_sorted k x (np_sort k a')
  end.

(** ** The store and the monad of methods *)

Abbreviation loc := nat.

Record DataCube : Type := mkDataCube {
  cube_id : nat;
  R_Nx : Z;
  R_Ny : Z
}.

(** An item of the [coordinates] argument: a name, a [(name, dtype)] tuple,
    or an object that is neither. *)
Inductive coordinate : Type :=
  | CStr (name : string)
  | CTuple (name : string) (ty : np_dtype)
  | COther.

(** A method is a function from the store to an outcome and a store. *)
Definition M (S A : Type) : Type := S → res A * S.

#[global] Instance M_ret {S : Type} : MRet (M S) := λ A a s, (Ret a, s).

#[global] Instance M_bind {S : Type} : MBind (M S) := λ A B f m s,
  match m s with
  | (Ret a, s') => f a s'
  | (Raise e, s') => (Raise e, s')
  end.

Definition raise {S A : Type} (e : exn) : M S A := λ s, (Raise e, s).

(** [assert b] *)
Definition assert {S : Type} (b : bool) : M S unit :=
  if b then mret () else raise AssertionError.

(** A pure computation that may raise. *)
Definition lift {S A : Type} (r : res A) : M S A := λ s, (r, s).

(** [for x in l: body(x)] *)
Fixpoint for_each {S A : Type} (l : list A) (body : A → M S unit) : M S unit :=
  match l with
  | [] => mret ()
  | x :: l' => body x;; for_each l' body
  end.

(** [[body(x) for x in l]] *)
Fixpoint comprehension {S A B : Type} (l : list A) (body : A → M S B) : M S (list B) :=
  match l with
  | [] => mret []
  | x :: l' => y ← body x; ys ← comprehension l' body; mret (y :: ys)
  end.

(** ** Class [PointList] *)

Module PointList.

Record t : Type := mk {
  coordinates : list coordinate;
  parentDataCube : DataCube;
  default_dtype : np_dtype;
  length : Z;
  dtype : fields_t;
  data : list row
}.

Definition set_data (o : t) (d : list row) : t :=
  mk (coordinates o) (parentDataCube o) (default_dtype o) (length o) (dtype o) d.

Definition set_length (o : t) (n : Z) : t :=
  mk (coordinates o) (parentDataCube o) (default_dtype o) n (dtype o) (data o).

(** The store: the point lists allocated so far, each at its address. *)
Abbreviation heap := (list t).

Definition get (self : loc) : M heap t := λ h,
  match h !! self with
  | Some o => (Ret o, h)
  | None => (Raise DanglingRef, h)
  end.

Definition put (self : loc) (o : t) : M heap unit := λ h, (Ret (), <[self := o]> h).

Definition alloc (o : t) : M heap loc := λ h, (Ret (Datatypes.length h), h ++ [o]).

(** The dtype built from [coordinates] (lines 41-46).  [np.dtype] rejects
    a list that mixes names and tuples and a repeated field name. *)
Definition coordinate_names (cs : list coordinate) : option (list string) :=
  mapM (λ c, match c with CStr n => Some n | _ => None end) cs.

Definition coordinate_pairs (cs : list coordinate) : option fields_t :=
  mapM (λ c, match c with CTuple n ty => Some (n, ty) | _ => None end) cs.

Definition np_dtype_of (fs : fields_t) : res fields_t :=
  if bool_decide (NoDup fs.*1) then Ret fs else Raise ValueError.

Definition make_dtype (cs : list coordinate) (default : np_dtype) : res fields_t :=
  match cs with
  | [] => Raise IndexError
  | CStr _ :: _ =>
      match coordinate_names cs with
      | Some names => np_dtype_of ((λ name, (name, default)) <$> names)
      | None => Raise TypeError
      end
  | CTuple _ _ :: _ =>
      match coordinate_pairs cs with
      | Some fs => np_dtype_of fs
      | None => Raise TypeError
      end
  | COther :: _ => Raise TypeError
  end.

Definition add_point (self : loc) (point : list value) : M heap unit :=
  o ← get self;
  assert (Datatypes.length point =? Datatypes.length (dtype o));;
  r ← lift (np_array point (dtype o));
  put self (set_data o (data o ++ [r]));;
  o ← get self;
  put self (set_length o (length o + 1)).

Definition add_pointarray (self : loc) (pointarray : list (list value)) : M heap unit :=
  o ← get self;
  first ← lift (py_index pointarray 0);
  assert (Datatypes.length first =? Datatypes.length (dtype o));;
  for_each pointarray (add_point self).

(** The constructor.  The new object enters the store once its dtype is
    known: an object whose construction fails earlier is never seen by
    anyone.  The argument [dtype] is the default type of the fields. *)
Definition __init__ (coordinates : list coordinate) (parentDataCube : DataCube)
    (data : option (list (list value))) (dtype : np_dtype) : M heap loc :=
  fields ← lift (make_dtype coordinates dtype);
  self ← alloc (mk coordinates parentDataCube dtype 0 fields []);
  match data with
  | None => mret self
  | Some pointarray => add_pointarray self pointarray;; mret self
  end.

Definition add_pointlist (self pointlist : loc) : M heap unit :=
  o ← get self;
  p ← get pointlist;
  assert (dtype_eqb (Struct (dtype o)) (Struct (dtype p)));;
  put self (set_data o (data o ++ data p));;
  o ← get self;
  p ← get pointlist;
  put self (set_length o (length o + length p)).

(** [np.sort(a, order=name)]; numpy rejects a name that is not a field. *)
Definition np_sort_order (fields : fields_t) (name : string) (a : list row) : res (list row) :=
  match field_index name fields.*1 with
  | Some k => Ret (np_sort k a)
  | None => Raise ValueError
  end.

Definition sort (self : loc) (coordinate : string) (order : string) : M heap unit :=
  o ← get self;
  assert (bool_decide (coordinate ∈ (dtype o).*1));;
  assert (bool_decide (order = "descending") || bool_decide (order = "ascending"));;
  if bool_decide (order = "ascending") then
    d ← lift (np_sort_order (dtype o) coordinate (data o));
    put self (set_data o d)
  else
    d ← lift (np_sort_order (dtype o) coordinate (data o));
    put self (set_data o (reverse d)).

Definition remove_points (self : loc) (deletemask : list bool) : M heap unit :=
  o ← get self;
  d ← lift (np_delete (data o) (nonzero deletemask));
  put self (set_data o d);;
  o ← get self;
  put self (set_length o (length o - Z.of_nat (Datatypes.length (nonzero deletemask)))).

(** [copy] hands the constructor the records as initial data and the
    structured dtype of [self] as the default type of the fields. *)
Definition copy (self : loc) : M heap loc :=
  o ← get self;
  __init__ (coordinates o) (parentDataCube o) (Some (data o)) (Struct (dtype o)).

(** [self.data[name]]: the column of a field.  Only a column of numbers
    is compared with a number; comparing a column of records with a number
    is a [TypeError].  The comparisons of [get_subpointlist] are those of
    the integers: this is what numpy computes on a column of [int64] and a
    Python integer of [int64], the case the statements about the records
    kept are made for. *)
Definition column (o : t) (name : string) : res (list Z) :=
  match field_index name (dtype o).*1 with
  | None => Raise ValueError
  | Some k =>
      match dtype o !! k with
      | Some (_, Scalar _) =>
          match mapM (λ r : row, match r !! k with Some (VNum z) => Some z | _ => None end)
                     (data o) with
          | Some col => Ret col
          | None => Raise TypeError
          end
      | _ => Raise TypeError
      end
  end.

(** Elementwise [|] of two boolean arrays of the same length. *)
Definition mask_or (a b : list bool) : list bool := zip_with orb a b.

(** One turn of the loop of [get_subpointlist] (lines 101-108).  A tuple
    is a field name followed by its numbers, [len(tup)] is one more than
    the number of numbers. *)
Definition mask_step (o : t) (deletemask : list bool) (tup : string * list Z)
    : M heap (list bool) :=
  let n := S (Datatypes.length tup.2) in
  assert ((n =? 2) || (n =? 3));;
  assert (bool_decide (tup.1 ∈ (dtype o).*1));;
  match tup.2 with
  | [val] =>
      col ← lift (column o tup.1);
      mret (mask_or deletemask ((λ x, negb (x =? val)%Z) <$> col))
  | [minval; maxval] =>
      col ← lift (column o tup.1);
      mret (mask_or (mask_or deletemask ((λ x, (x <? minval)%Z) <$> col))
                    ((λ x, (maxval <=? x)%Z) <$> col))
  | _ => raise AssertionError
  end.

Fixpoint mask_loop (o : t) (deletemask : list bool) (coords_vals : list (string * list Z))
    : M heap (list bool) :=
  match coords_vals with
  | [] => mret deletemask
  | tup :: rest => m ← mask_step o deletemask tup; mask_loop o m rest
  end.

Definition get_subpointlist (self : loc) (coords_vals : list (string * list Z)) : M heap loc :=
  o ← get self;
  deletemask ← mask_loop o (replicate (Datatypes.length (data o)) false) coords_vals;
  new_pointlist ← copy self;
  remove_points new_pointlist deletemask;;
  mret new_pointlist.

End PointList.

(** ** Class [PointListArray] *)

(** An item of the [shape] tuple: an integer, or an object [range] rejects. *)
Inductive shape_item : Type :=
  | SInt (n : Z)
  | SOther.

(** The [shape] argument: [None], a tuple, or an object that is no tuple. *)
Inductive shape_arg : Type :=
  | ShapeNone
  | ShapeTuple (items : list shape_item)
  | ShapeOther.

(** [range(x)] *)
Definition py_range (x : shape_item) : res (list Z) :=
  match x with
  | SInt n => Ret (seqZ 0 n)
  | SOther => Raise TypeError
  end.

Module PointListArray.

Record t : Type := mk {
  coordinates : list coordinate;
  parentDataCube : DataCube;
  default_dtype : np_dtype;
  shape : shape_item * shape_item;
  pointlists : list (list loc)
}.

Definition __init__ (coordinates : list coordinate) (parentDataCube : DataCube)
    (shape : shape_arg) (dtype : np_dtype) : M PointList.heap t :=
  shape ← match shape with
          | ShapeNone => mret (SInt (R_Nx parentDataCube), SInt (R_Ny parentDataCube))
          | ShapeTuple items =>
              assert (Datatypes.length items =? 2);;
              match items with
              | [a; b] => mret (a, b)
              | _ => raise AssertionError
              end
          | ShapeOther => raise AssertionError
          end;
  outer ← lift (py_range shape.1);
  pointlists ← comprehension outer (λ i,
    inner ← lift (py_range shape.2);
    comprehension inner (λ j,
      PointList.__init__ coordinates parentDataCube None dtype));
  mret (mk coordinates parentDataCube dtype shape pointlists).

Definition get_pointlist (self : t) (i j : Z) : res loc :=
  r ← py_index (pointlists self) i;
  py_index r j.

Definition copy (self : t) : M PointList.heap t :=
  new_pointlistarray ←
    __init__ (coordinates self) (parentDataCube self)
             (ShapeTuple [(shape self).1; (shape self).2]) (default_dtype self);
  outer ← lift (py_range (shape new_pointlistarray).1);
  for_each outer (λ i,
    inner ← lift (py_range (shape new_pointlistarray).2);
    for_each inner (λ j,
      curr_pointlist ← lift (get_pointlist new_pointlistarray i j);
      src ← lift (get_pointlist self i j);
      c ← PointList.copy src;
      PointList.add_pointlist curr_pointlist c));;
  mret new_pointlistarray.

End PointListArray.

(** ** Vocabulary of the statements *)

(** The counter of a point list agrees with its array of records. *)
Definition count_inv (o : PointList.t) : Prop :=
  PointList.length o = Z.of_nat (length (PointList.data o)).

Definition heap_inv (h : PointList.heap) : Prop := Forall count_inv h.

(** A method that leaves every counter in step when it finds them so,
    whether it returns or raises. *)
Definition preserves {A : Type} (m : M PointList.heap A) : Prop :=
  ∀ h, heap_inv h → heap_inv (m h).2.

(** A method that writes to no point list other than [self]. *)
Definition modifies_only {A : Type} (self : loc) (m : M PointList.heap A) : Prop :=
  ∀ h l, l ≠ self → (m h).2 !! l = h !! l.

(** A method that writes to no point list allocated before the call. *)
Definition keeps_allocated {A : Type} (m : M PointList.heap A) : Prop :=
  ∀ h l, l < length h → (m h).2 !! l = h !! l.

(** The point list [o] after its counter and records are replaced. *)
Definition updated (o : PointList.t) (n : Z) (d : list row) : PointList.t :=
  PointList.set_length (PointList.set_data o d) n.

(** A freshly constructed, empty point list. *)
Definition empty_pointlist (cs : list coordinate) (cube : DataCube) (default : np_dtype)
    (fields : fields_t) : PointList.t :=
  PointList.mk cs cube default 0 fields [].

(** The records are in the ascending order [np.sort] puts them in when
    [k] is the position of the field sorted by. *)
Definition ordered (k : nat) (l : list row) : Prop :=
  Sorted (λ a b, key_leb k a b = true) l.

(** The number of true entries of a mask. *)
Definition count_true (mask : list bool) : nat := length (filter (λ b, b = true) mask).

(** The elements of [arr] that [mask] pairs with [false]. *)
Definition unmarked {A : Type} (arr : list A) (mask : list bool) : list A :=
  (filter (λ p, p.2 = false) (zip arr mask)).*1.

(** A grid with [R] rows of [C] cells. *)
Definition grid_shape (g : PointListArray.t) (R C : nat) : Prop :=
  length (PointListArray.pointlists g) = R ∧
  Forall (λ r, length r = C) (PointListArray.pointlists g).

(** The records made from the points of a batch that come before the
    first point [add_point] rejects. *)
Fixpoint accepted (fields : fields_t) (batch : list (list value)) : list row :=
  match batch with
  | [] => []
  | point :: batch' =>
      if length point =? length fields then
        match np_array point fields with
        | Ret r => r :: accepted fields batch'
        | Raise _ => []
        end
      else []
  end.

(** The exception [add_point] raises at the first point it rejects. *)
Fixpoint rejection (fields : fields_t) (batch : list (list value)) : option exn :=
  match batch with
  | [] => None
  | point :: batch' =>
      if length point =? length fields then
        match np_array point fields with
        | Ret _ => rejection fields batch'
        | Raise e => Some e
        end
      else Some AssertionError
  end.

(** The addresses of the cells of a grid of [R] rows of [C] cells whose
    point lists were allocated one after the other from address [base]. *)
Definition grid_locs (base R C : nat) : list (list loc) :=
  (λ i, seq (base + i * C) C) <$> seq 0 R.

(** Field-by-field conversion of a tuple, the structured case of [coerce]. *)
Fixpoint coerce_fields (fs : fields_t) (vs : list value) : res (list value) :=
  match fs, vs with
  | [], [] => Ret []
  | (_, t') :: fs', x :: vs' =>
      match coerce t' x with
      | Ret y =>
          match coerce_fields fs' vs' with
          | Ret ys => Ret (y :: ys)
          | Raise e => Raise e
          end
      | Raise e => Raise e
      end
  | _, _ => Raise ValueError
  end.

(** The integers a scalar field stores as they are: all of [int64] for an
    integer field, and for a float field the integers up to [2^53] in
    magnitude, the range in which every integer is a [float64]. *)
Definition fits (k : scalar_kind) (z : Z) : Prop :=
  match k with
  | Int => (- 2 ^ 63 ≤ z < 2 ^ 63)%Z
  | Float => (Z.abs z ≤ 2 ^ 53)%Z
  end.

(** A point for a dtype of scalar fields: one integer for each field, which
    the field stores as it is. *)
Definition point_fits (fields : fields_t) (point : list value) : Prop :=
  Forall2 (λ f v, ∃ k z, f.2 = Scalar k ∧ v = VNum z ∧ fits k z) fields point.

(** The number a record holds at position [k]. *)
Definition field_num (k : nat) (r : row) : Z :=
  match r !! k with
  | Some (VNum z) => z
  | _ => 0%Z
  end.

(** A record satisfies a tuple of [coords_vals]: [(name, val)] asks for
    [r[name] == val], [(name, minval, maxval)] for [minval <= r[name] < maxval]. *)
Definition satisfies (names : list string) (r : row) (tup : string * list Z) : bool :=
  match field_index tup.1 names, tup.2 with
  | Some k, [val] => (field_num k r =? val)%Z
  | Some k, [minval; maxval] => (minval <=? field_num k r)%Z && (field_num k r <? maxval)%Z
  | _, _ => false
  end.

(** A tuple of [coords_vals] that [get_subpointlist] accepts on a table
    with these fields: one or two numbers after the name of a numeric field. *)
Definition accepted_tuple (fields : fields_t) (tup : string * list Z) : Prop :=
  (length tup.2 = 1 ∨ length tup.2 = 2) ∧
  ∃ k kind, field_index tup.1 fields.*1 = Some k ∧ fields !! k = Some (tup.1, Scalar kind).

(** A tuple of [coords_vals] over an integer field: one or two integers of
    [int64] after the name of a field of type [int]. *)
Definition integer_tuple (fields : fields_t) (tup : string * list Z) : Prop :=
  (length tup.2 = 1 ∨ length tup.2 = 2) ∧
  Forall (fits Int) tup.2 ∧
  ∃ k, field_index tup.1 fields.*1 = Some k ∧ fields !! k = Some (tup.1, Scalar Int).

(** The records of a table are what [np.array] stores for its dtype. *)
Definition rows_typed (o : PointList.t) : Prop :=
  Forall (λ r, np_array r (PointList.dtype o) = Ret r) (PointList.data o).

(** Every record of a point list has as many items as its dtype has fields. *)
Definition arity_inv (o : PointList.t) : Prop :=
  Forall (λ r : row, length r = length (PointList.dtype o)) (PointList.data o).

(** A method that keeps a property of point lists true of every point list
    of the store, whether it returns or raises. *)
Definition keeps (I : PointList.t → Prop) {A : Type} (m : M PointList.heap A) : Prop :=
  ∀ h, Forall I h → Forall I (m h).2.

(** The number of constructors of a dtype. *)
Fixpoint dtype_size (t : np_dtype) : nat :=
  match t with
  | Scalar _ => 1
  | Struct fs =>
      S ((fix go (fs : fields_t) : nat :=
            match fs with
            | [] => 0
            | (_, t') :: fs' => dtype_size t' + go fs'
            end) fs)
  end.

(** A cell a grid can be copied from: it holds a record, its records are
    typed, its dtype is the one of the grid, and its coordinates rebuild
    that dtype whatever the default type is. *)
Definition good_cell (fields : fields_t) (o : PointList.t) : Prop :=
  PointList.data o ≠ [] ∧
  rows_typed o ∧
  PointList.dtype o = fields ∧
  PointList.make_dtype (PointList.coordinates o) (Struct (PointList.dtype o))
    = Ret (PointList.dtype o).

(** The point list [e] after the copy of [o] has been merged into it. *)
Definition filled_cell (e o : PointList.t) : PointList.t :=
  updated e (PointList.length e + Z.of_nat (length (PointList.data o)))
            (PointList.data e ++ PointList.data o).

(** ** Sample data *)

Definition sample_cube : DataCube := mkDataCube 0 2 3.

Definition xy_coordinates : list coordinate :=
  [CTuple "x" (Scalar Int); CTuple "y" (Scalar Int)].

Definition xy_dtype : fields_t := [("x", Scalar Int); ("y", Scalar Int)].

(** A point list over [x] and [y] holding [d], with its counter in step. *)
Definition xy_pointlist (d : list row) : PointList.t :=
  PointList.mk xy_coordinates sample_cube (Scalar Float) (Z.of_nat (length d)) xy_dtype d.

Definition pt (x y : Z) : row := [VNum x; VNum y].

(** * Properties *)

(** ** The primitives *)

Section primitives.
Context {A : Type}.
Implicit Types (arr : list A) (mask : list bool) (idxs : list nat).

Lemma elem_of_nonzero_from k mask i :
  i ∈ nonzero_from k mask ↔ k ≤ i ∧ mask !! (i - k) = Some true.
Proof.
  revert k. induction mask as [|b mask IH]; intros k; simpl.
  - rewrite elem_of_nil, lookup_nil. intuition congruence.
  - pose proof (IH (S k)) as Hrec.
    destruct (decide (k < i)) as [Hlt|Hge].
    + replace (i - k) with (S (i - S k)) by lia. simpl.
      destruct b; rewrite ?elem_of_cons, Hrec; intuition lia.
    + destruct (decide (i = k)) as [->|Hne].
      * rewrite Nat.sub_diag. simpl.
        destruct b; rewrite ?elem_of_cons, Hrec; intuition (lia || congruence).
      * destruct b; rewrite ?elem_of_cons, Hrec; intuition lia.
Qed.

Lemma elem_of_nonzero mask i : i ∈ nonzero mask ↔ mask !! i = Some true.
Proof.
  unfold nonzero. rewrite elem_of_nonzero_from.
  replace (i - 0) with i by lia. intuition lia.
Qed.

Lemma length_nonzero_from k mask :
  length (nonzero_from k mask) = length (filter (λ b, b = true) mask).
Proof.
  revert k. induction mask as [|[] mask IH]; intros k; [done| |].
  - rewrite filter_cons_True by done. simpl. by rewrite IH.
  - rewrite filter_cons_False by done. simpl. by rewrite IH.
Qed.

Lemma nonzero_in_range mask n :
  forallb (λ i, i <? n) (nonzero mask) = true ↔
  ∀ i, mask !! i = Some true → i < n.
Proof.
  rewrite forallb_forall. split.
  - intros H i Hi. apply Nat.ltb_lt, H, list_elem_of_In, elem_of_nonzero, Hi.
  - intros H i Hi. apply Nat.ltb_lt, H, elem_of_nonzero, list_elem_of_In, Hi.
Qed.

(** Deleting the true positions of a mask keeps the elements paired with
    [false] and the elements the mask does not reach, in their order. *)
Lemma delete_from_nonzero k arr mask :
  delete_from k arr (nonzero mask) =
    (filter (λ p, p.2 = false) (zip arr (drop k mask))).*1
    ++ drop (length (drop k mask)) arr.
Proof.
  revert k. induction arr as [|x arr IH]; intros k; simpl.
  - by rewrite drop_nil.
  - destruct (mask !! k) as [b|] eqn:Hk.
    + rewrite (drop_S _ _ _ Hk). simpl. rewrite IH.
      destruct b.
      * rewrite bool_decide_true by (by apply elem_of_nonzero).
        by rewrite filter_cons_False by (simpl; congruence).
      * rewrite bool_decide_false by (rewrite elem_of_nonzero; congruence).
        by rewrite filter_cons_True by done.
    + rewrite bool_decide_false by (rewrite elem_of_nonzero; congruence).
      rewrite IH.
      apply lookup_ge_None_1 in Hk.
      rewrite (drop_ge mask k), (drop_ge mask (S k)) by lia.
      by rewrite zip_with_nil_r.
Qed.

End primitives.

Lemma field_index_None name names : field_index name names = None ↔ name ∉ names.
Proof.
  induction names as [|n names IH]; simpl.
  - split; [intros _; apply not_elem_of_nil | done].
  - rewrite not_elem_of_cons. case_bool_decide as Hn.
    + split; [done | intros [? _]; congruence].
    + destruct (field_index name names); simpl.
      * split; [done | intros [_ Hin]]. by apply IH in Hin.
      * split; [intros _ | done]. split; [congruence | by apply IH].
Qed.

Lemma field_index_is_Some name names : is_Some (field_index name names) ↔ name ∈ names.
Proof.
  rewrite <-not_eq_None_Some, field_index_None.
  destruct (decide (name ∈ names)); intuition.
Qed.

Lemma field_index_lookup name names k :
  field_index name names = Some k → names !! k = Some name.
Proof.
  revert k. induction names as [|n names IH]; intros k; simpl; [done|].
  case_bool_decide as Hn.
  - intros [= <-]. by subst.
  - destruct (field_index name names) as [k'|]; simpl; [|done].
    intros [= <-]. by apply IH.
Qed.

(** ** Running the methods of [PointList] *)

Ltac unfold_M :=
  unfold assert, lift;
  unfold mbind, M_bind, mret, M_ret, raise,
    PointList.get, PointList.put, PointList.alloc.

Section pointlist_runs.
Implicit Types (h : PointList.heap) (o : PointList.t) (self : loc).

Lemma add_point_run h self o point :
  h !! self = Some o →
  PointList.add_point self point h =
    if length point =? length (PointList.dtype o) then
      match np_array point (PointList.dtype o) with
      | Ret r =>
          (Ret (), <[self := updated o (PointList.length o + 1) (PointList.data o ++ [r])]> h)
      | Raise e => (Raise e, h)
      end
    else (Raise AssertionError, h).
Proof.
  intros Hs. unfold PointList.add_point. unfold_M. rewrite Hs.
  destruct (_ =? _); [|done].
  destruct (np_array _ _) as [r|e]; [|done].
  rewrite list_lookup_insert_eq by eauto using lookup_lt_Some.
  by rewrite list_insert_insert_eq.
Qed.

Lemma remove_points_run h self o mask :
  h !! self = Some o →
  PointList.remove_points self mask h =
    match np_delete (PointList.data o) (nonzero mask) with
    | Ret d =>
        (Ret (), <[self := updated o (PointList.length o - Z.of_nat (length (nonzero mask))) d]> h)
    | Raise e => (Raise e, h)
    end.
Proof.
  intros Hs. unfold PointList.remove_points. unfold_M. rewrite Hs.
  destruct (np_delete _ _) as [d|e]; [|done].
  rewrite list_lookup_insert_eq by eauto using lookup_lt_Some.
  by rewrite list_insert_insert_eq.
Qed.

Lemma add_pointlist_run h self other o p :
  h !! self = Some o →
  h !! other = Some p →
  PointList.add_pointlist self other h =
    if dtype_eqb (Struct (PointList.dtype o)) (Struct (PointList.dtype p)) then
      (Ret (), <[self := updated o (PointList.length o + PointList.length p)
                                  (PointList.data o ++ PointList.data p)]> h)
    else (Raise AssertionError, h).
Proof.
  intros Hs Ho. unfold PointList.add_pointlist. unfold_M. rewrite Hs, Ho.
  destruct (dtype_eqb _ _); [|done].
  rewrite list_lookup_insert_eq by eauto using lookup_lt_Some.
  destruct (decide (self = other)) as [->|Hne].
  - rewrite list_lookup_insert_eq by eauto using lookup_lt_Some.
    rewrite list_insert_insert_eq. by simplify_eq.
  - rewrite list_lookup_insert_ne by done. rewrite Ho.
    by rewrite list_insert_insert_eq.
Qed.

Lemma sort_run h self o coordinate order :
  h !! self = Some o →
  PointList.sort self coordinate order h =
    match field_index coordinate (PointList.dtype o).*1 with
    | None => (Raise AssertionError, h)
    | Some k =>
        if bool_decide (order = "ascending") then
          (Ret (), <[self := PointList.set_data o (np_sort k (PointList.data o))]> h)
        else if bool_decide (order = "descending") then
          (Ret (), <[self := PointList.set_data o (reverse (np_sort k (PointList.data o)))]> h)
        else (Raise AssertionError, h)
    end.
Proof.
  intros Hs. unfold PointList.sort, PointList.np_sort_order. unfold_M. rewrite Hs.
  destruct (field_index _ _) as [k|] eqn:Hk.
  - rewrite bool_decide_true by (apply field_index_is_Some; eauto).
    destruct (bool_decide (order = "ascending")) eqn:Ha.
    + by rewrite orb_true_r.
    + rewrite orb_false_r. by destruct (bool_decide (order = "descending")).
  - by rewrite bool_decide_false by (by apply field_index_None).
Qed.

End pointlist_runs.

(** ** [remove_points] *)

(** C1 (as amended).  [remove_points] compares no lengths.  Whenever every
    true entry of the mask sits at the position of a stored row, so for every
    mask as long as the table and for every shorter mask, the call deletes
    exactly the rows at the true positions, keeps the other rows in their
    order and lowers the counter by the number of true entries.  It fails,
    with [IndexError] and the table untouched, only when the mask has a true
    entry beyond the last row. *)
Theorem remove_points_spec (h : PointList.heap) (self : loc) (o : PointList.t)
    (mask : list bool) :
  h !! self = Some o →
  ((∀ i, mask !! i = Some true → i < length (PointList.data o)) →
     PointList.remove_points self mask h =
       (Ret (), <[self := updated o (PointList.length o - Z.of_nat (count_true mask))
                   (unmarked (PointList.data o) mask
                    ++ drop (length mask) (PointList.data o))]> h)) ∧
  (count_inv o → Z.of_nat (length mask) = PointList.length o →
     PointList.remove_points self mask h =
       (Ret (), <[self := updated o (PointList.length o - Z.of_nat (count_true mask))
                   (unmarked (PointList.data o) mask)]> h)) ∧
  ((∃ i, mask !! i = Some true ∧ length (PointList.data o) ≤ i) →
     PointList.remove_points self mask h = (Raise IndexError, h)).
Proof.
  intros Hs.
  assert (Hin : (∀ i, mask !! i = Some true → i < length (PointList.data o)) →
     PointList.remove_points self mask h =
       (Ret (), <[self := updated o (PointList.length o - Z.of_nat (count_true mask))
                   (unmarked (PointList.data o) mask
                    ++ drop (length mask) (PointList.data o))]> h)).
  { intros Hrange. rewrite (remove_points_run _ _ _ _ Hs). unfold np_delete.
    rewrite (proj2 (nonzero_in_range _ _) Hrange).
    rewrite delete_from_nonzero, drop_0.
    unfold nonzero. by rewrite length_nonzero_from. }
  split; [done|]. split.
  - intros Hinv Hlen. red in Hinv.
    assert (length mask = length (PointList.data o)) as Hl by lia.
    rewrite Hin.
    + by rewrite Hl, drop_all, app_nil_r.
    + intros i Hi. rewrite <-Hl. eauto using lookup_lt_Some.
  - intros (i & Hi & Hge). rewrite (remove_points_run _ _ _ _ Hs). unfold np_delete.
    destruct (forallb _ _) eqn:Hall; [|done].
    pose proof (proj1 (nonzero_in_range _ _) Hall i Hi). lia.
Qed.

Lemma remove_points_spec_witness :
  PointList.remove_points 0 [true; false]
      [xy_pointlist [pt 1 2; pt 3 4; pt 1 5]] =
    (Ret (), [xy_pointlist [pt 3 4; pt 1 5]]) ∧
  PointList.remove_points 0 [false; true; true]
      [xy_pointlist [pt 1 2; pt 3 4; pt 1 5]] =
    (Ret (), [xy_pointlist [pt 1 2]]) ∧
  PointList.remove_points 0 [false; false; false; true]
      [xy_pointlist [pt 1 2; pt 3 4; pt 1 5]] =
    (Raise IndexError, [xy_pointlist [pt 1 2; pt 3 4; pt 1 5]]).
Proof.
  pose proof (remove_points_spec [xy_pointlist [pt 1 2; pt 3 4; pt 1 5]] 0
                (xy_pointlist [pt 1 2; pt 3 4; pt 1 5])) as H.
  split; [|split].
  - apply (H [true; false] eq_refl).
    intros [|[|i]] Hi; simpl in *; (lia || discriminate).
  - apply (H [false; true; true] eq_refl); reflexivity.
  - apply (H [false; false; false; true] eq_refl).
    exists 3. split; [reflexivity | simpl; lia].
Defined.

(** C1 as stated fails: on a table of two rows a mask of length one is
    accepted, and the row it marks is deleted. *)
Lemma remove_points_short_mask_accepted :
  Z.of_nat (length [true]) ≠ PointList.length (xy_pointlist [pt 1 2; pt 3 4]) ∧
  ∃ h', PointList.remove_points 0 [true] [xy_pointlist [pt 1 2; pt 3 4]] = (Ret (), h') ∧
        h' ≠ [xy_pointlist [pt 1 2; pt 3 4]].
Proof.
  split; [done|]. eexists. split; [reflexivity|]. discriminate.
Qed.

(** ** Conversion of values *)

Lemma coerce_struct_tuple (fs : fields_t) (vs : list value) :
  coerce (Struct fs) (VTuple vs) =
    if length vs =? length fs then VTuple <$> coerce_fields fs vs else Raise ValueError.
Proof. reflexivity. Qed.

Lemma coerce_fields_length (fs : fields_t) : ∀ vs r,
  coerce_fields fs vs = Ret r → length vs = length fs ∧ length r = length fs.
Proof.
  induction fs as [|[n t] fs IH]; intros [|x vs] r; simpl; try done.
  - by intros [= <-].
  - destruct (coerce t x); [|done].
    destruct (coerce_fields fs vs) as [ys|] eqn:Hys; [|done].
    intros [= <-]. destruct (IH _ _ Hys). simpl. lia.
Qed.

Lemma np_array_fields (point : list value) (fields : fields_t) :
  length point = length fields → np_array point fields = coerce_fields fields point.
Proof.
  intros Hlen. unfold np_array. rewrite coerce_struct_tuple, (proj2 (Nat.eqb_eq _ _) Hlen).
  by destruct (coerce_fields fields point).
Qed.

Lemma np_array_Ret (point : list value) (fields : fields_t) (r : row) :
  np_array point fields = Ret r ↔ coerce_fields fields point = Ret r.
Proof.
  split.
  - unfold np_array. rewrite coerce_struct_tuple.
    destruct (length point =? length fields) eqn:Hlen; [|done].
    destruct (coerce_fields fields point); [|done]. simpl. congruence.
  - intros Hr. rewrite np_array_fields; [done|]. by apply coerce_fields_length in Hr as [? _].
Qed.

(** A float field stores the integers up to [2^53] in magnitude as they are. *)
Lemma float_of_int_exact (z : Z) : (Z.abs z ≤ 2 ^ 53)%Z → float_of_int z = Some z.
Proof.
  intros Hz. destruct (decide (Z.abs z = 2 ^ 53)%Z) as [Heq|Hne].
  - assert (z = 2 ^ 53 ∨ z = - 2 ^ 53)%Z as [-> | ->] by lia; by vm_compute.
  - unfold float_of_int.
    assert (Z.log2 (Z.abs z) < 53)%Z as Hlog.
    { destruct (decide (Z.abs z = 0)%Z) as [-> | Hpos]; [done|].
      apply Z.log2_lt_pow2; lia. }
    by rewrite (proj2 (Z.leb_le _ _)) by lia.
Qed.

Lemma np_scalar_fits (k : scalar_kind) (z : Z) : fits k z → np_scalar k z = Ret z.
Proof.
  destruct k; simpl; intros Hz.
  - by rewrite float_of_int_exact.
  - by rewrite (proj2 (Z.leb_le _ _)), (proj2 (Z.ltb_lt _ _)) by lia.
Qed.

(** An integer field rejects the integers outside [int64]. *)
Lemma np_scalar_overflow (z : Z) :
  ¬ fits Int z → np_scalar Int z = Raise OverflowError.
Proof.
  simpl. intros Hz.
  destruct (- 2 ^ 63 <=? z)%Z eqn:Hlo; [|done].
  destruct (z <? 2 ^ 63)%Z eqn:Hhi; [|done].
  apply Z.leb_le in Hlo. apply Z.ltb_lt in Hhi. lia.
Qed.

Lemma point_fits_length (fields : fields_t) (point : list value) :
  point_fits fields point → length point = length fields.
Proof. intros H. symmetry. exact (Forall2_length _ _ _ H). Qed.

(** A point of integers that fit their scalar fields is stored as it is. *)
Lemma np_array_fits (fields : fields_t) (point : list value) :
  point_fits fields point → np_array point fields = Ret point.
Proof.
  intros Hfits. apply np_array_Ret.
  induction Hfits as [|[n t] v fields point (k & z & Ht & -> & Hz) _ IH]; [done|].
  simpl in Ht. subst t. simpl. rewrite np_scalar_fits by done. simpl. by rewrite IH.
Qed.

(** What a record holds in a scalar field is the number the field stores
    for the number of the point. *)
Lemma coerce_fields_scalar (fs : fields_t) : ∀ (r r' : list value) k n kind,
  coerce_fields fs r = Ret r' →
  fs !! k = Some (n, Scalar kind) →
  ∃ z z', r !! k = Some (VNum z) ∧ r' !! k = Some (VNum z') ∧ np_scalar kind z = Ret z'.
Proof.
  induction fs as [|[m t] fs IH]; intros [|x r] r' k n kind; simpl; try done.
  destruct (coerce t x) as [y|] eqn:Hy; [|done].
  destruct (coerce_fields fs r) as [ys|] eqn:Hys; [|done].
  intros [= <-]. destruct k as [|k]; simpl.
  - intros [= -> ->]. simpl in Hy. destruct x as [z|]; [|done].
    destruct (np_scalar kind z) as [z'|] eqn:Hz; [|done].
    injection Hy as <-. by exists z, z'.
  - intros Hk. by eapply IH.
Qed.

(** ** [add_point] and [add_pointarray] *)

Section appending.
Implicit Types (h : PointList.heap) (o : PointList.t) (self : loc).

Lemma updated_id o :
  updated o (PointList.length o + Z.of_nat 0) (PointList.data o ++ []) = o.
Proof.
  destruct o. unfold updated, PointList.set_length, PointList.set_data. simpl.
  f_equal; [lia | apply app_nil_r].
Qed.

Lemma updated_updated o n d m e : updated (updated o n d) m e = updated o m e.
Proof. done. Qed.

Lemma for_each_add_point_run batch : ∀ h self o,
  h !! self = Some o →
  for_each batch (PointList.add_point self) h =
    (match rejection (PointList.dtype o) batch with
     | None => Ret ()
     | Some e => Raise e
     end,
     <[self := updated o
         (PointList.length o + Z.of_nat (length (accepted (PointList.dtype o) batch)))
         (PointList.data o ++ accepted (PointList.dtype o) batch)]> h).
Proof.
  induction batch as [|point batch IH]; intros h self o Hs; simpl.
  - unfold_M. rewrite updated_id. by rewrite list_insert_id.
  - unfold mbind, M_bind. rewrite (add_point_run _ _ _ _ Hs).
    destruct (_ =? _).
    + destruct (np_array _ _) as [r|e].
      * erewrite IH by (apply list_lookup_insert_eq; eauto using lookup_lt_Some).
        rewrite list_insert_insert_eq. simpl.
        rewrite updated_updated, <-app_assoc. simpl.
        do 3 f_equal. lia.
      * rewrite updated_id. by rewrite list_insert_id.
    + rewrite updated_id. by rewrite list_insert_id.
Qed.

Lemma add_pointarray_run h self o batch :
  h !! self = Some o →
  PointList.add_pointarray self batch h =
    match batch with
    | [] => (Raise IndexError, h)
    | first :: _ =>
        if length first =? length (PointList.dtype o) then
          for_each batch (PointList.add_point self) h
        else (Raise AssertionError, h)
    end.
Proof.
  intros Hs. unfold PointList.add_pointarray. unfold_M. rewrite Hs.
  destruct batch as [|first batch]; [done|].
  unfold py_index. simpl. by destruct (_ =? _).
Qed.

Lemma accepted_shorter fields batch : length (accepted fields batch) ≤ length batch.
Proof.
  induction batch as [|point batch IH]; simpl; [done|].
  destruct (_ =? _); [|simpl; lia].
  destruct (np_array _ _); simpl; lia.
Qed.

Lemma rejection_accepted fields batch e :
  rejection fields batch = Some e → length (accepted fields batch) < length batch.
Proof.
  induction batch as [|point batch IH]; simpl; [done|].
  destruct (_ =? _); [|simpl; lia].
  destruct (np_array _ _); simpl; [|lia]. intros He. apply IH in He. lia.
Qed.

Lemma accepted_nil fields batch :
  accepted fields batch = [] ↔
  match batch with
  | [] => True
  | first :: _ => length first ≠ length fields ∨ ∃ e, np_array first fields = Raise e
  end.
Proof.
  destruct batch as [|first batch]; simpl; [done|].
  destruct (length first =? length fields) eqn:Hlen.
  - apply Nat.eqb_eq in Hlen. destruct (np_array first fields) as [r|e].
    + split; [done|]. intros [? | [e ?]]; done.
    + split; [|done]. intros _. right. by exists e.
  - apply Nat.eqb_neq in Hlen. split; [|done]. intros _. by left.
Qed.

(** The point at which a failing batch stops is the one [add_point] rejects,
    with the exception the batch fails with. *)
Lemma rejection_point fields batch e :
  rejection fields batch = Some e →
  ∃ point, batch !! length (accepted fields batch) = Some point ∧
    (length point ≠ length fields ∧ e = AssertionError ∨
     length point = length fields ∧ np_array point fields = Raise e).
Proof.
  induction batch as [|point batch IH]; simpl; [done|].
  destruct (length point =? length fields) eqn:Hlen.
  - apply Nat.eqb_eq in Hlen. destruct (np_array point fields) as [r|e'] eqn:Hr; simpl.
    + done.
    + intros [= ->]. exists point. split; [done|]. by right.
  - apply Nat.eqb_neq in Hlen. intros [= <-]. exists point. split; [done|]. by left.
Qed.

Lemma accepted_converted fields batch :
  Forall2 (λ point r, length point = length fields ∧ np_array point fields = Ret r)
          (take (length (accepted fields batch)) batch) (accepted fields batch).
Proof.
  induction batch as [|point batch IH]; simpl; [constructor|].
  destruct (_ =? _) eqn:Hlen; [|constructor].
  destruct (np_array _ _) eqn:Hr; simpl; [|constructor].
  constructor; [|done]. split; [by apply Nat.eqb_eq | done].
Qed.

End appending.

(** C3 (as amended).  A failing [add_pointarray] is atomic only when it
    fails at the first point.  In general it leaves the earlier records of
    the table in place and has appended the records of the points that come
    before the first rejected point, in their order, with the counter raised
    by their number; the point after them is the rejected one, of the wrong
    length or not convertible to a record.  The table is unchanged exactly
    when no point had been accepted, that is for an empty batch and for a
    batch whose first point is rejected. *)
Theorem add_pointarray_failure (h h' : PointList.heap) (self : loc) (o : PointList.t)
    (batch : list (list value)) (e : exn) :
  h !! self = Some o →
  PointList.add_pointarray self batch h = (Raise e, h') →
  let rows := accepted (PointList.dtype o) batch in
  h' = <[self := updated o (PointList.length o + Z.of_nat (length rows))
                   (PointList.data o ++ rows)]> h ∧
  Forall2 (λ point r, length point = length (PointList.dtype o) ∧
                      np_array point (PointList.dtype o) = Ret r)
          (take (length rows) batch) rows ∧
  (batch = [] ∨
   ∃ point, batch !! length rows = Some point ∧
     (length point ≠ length (PointList.dtype o) ∧ e = AssertionError ∨
      length point = length (PointList.dtype o) ∧
      np_array point (PointList.dtype o) = Raise e)) ∧
  (h' = h ↔ rows = []) ∧
  (rows = [] ↔
   match batch with
   | [] => True
   | first :: _ =>
       length first ≠ length (PointList.dtype o) ∨
       ∃ e', np_array first (PointList.dtype o) = Raise e'
   end).
Proof.
  intros Hs Hrun rows.
  assert (Hnil : rows = [] → <[self := updated o (PointList.length o + Z.of_nat (length rows))
                   (PointList.data o ++ rows)]> h = h).
  { intros ->. simpl. rewrite updated_id. by apply list_insert_id. }
  assert (Hh' : h' = <[self := updated o (PointList.length o + Z.of_nat (length rows))
                   (PointList.data o ++ rows)]> h ∧
                (batch = [] ∨
                 ∃ point, batch !! length rows = Some point ∧
                   (length point ≠ length (PointList.dtype o) ∧ e = AssertionError ∨
                    length point = length (PointList.dtype o) ∧
                    np_array point (PointList.dtype o) = Raise e))).
  { rewrite (add_pointarray_run _ _ _ _ Hs) in Hrun.
    destruct batch as [|first batch].
    - injection Hrun as _ <-. split; [|by left]. symmetry. by apply Hnil.
    - destruct (length first =? _) eqn:Hfirst.
      + rewrite (for_each_add_point_run _ _ _ _ Hs) in Hrun.
        destruct (rejection _ _) as [e'|] eqn:Hrej; [|done].
        injection Hrun as -> <-. split; [done|]. right.
        by apply rejection_point.
      + injection Hrun as <- <-. subst rows. simpl. rewrite Hfirst.
        split.
        * simpl. rewrite updated_id. symmetry. by apply list_insert_id.
        * right. exists first. split; [done|]. left. by apply Nat.eqb_neq in Hfirst. }
  destruct Hh' as [-> Hlt].
  split; [done|]. split; [apply accepted_converted|]. split; [done|]. split.
  - split; [|done]. intros Heq.
    assert (Hl : <[self := updated o (PointList.length o + Z.of_nat (length rows))
                   (PointList.data o ++ rows)]> h !! self = Some o) by (by rewrite Heq).
    rewrite list_lookup_insert_eq in Hl by eauto using lookup_lt_Some.
    injection Hl as Hl. apply (f_equal PointList.data) in Hl. simpl in Hl.
    apply (f_equal length) in Hl. rewrite length_app in Hl.
    apply nil_length_inv. lia.
  - apply accepted_nil.
Qed.

Lemma add_pointarray_failure_witness :
  PointList.add_pointarray 0 [pt 1 2; [VNum 3]; pt 1 5] [xy_pointlist [pt 7 8]] =
    (Raise AssertionError, [xy_pointlist [pt 7 8; pt 1 2]]) ∧
  [xy_pointlist [pt 7 8; pt 1 2]] =
    <[0 := updated (xy_pointlist [pt 7 8]) (1 + Z.of_nat 1) ([pt 7 8] ++ [pt 1 2])]>
      [xy_pointlist [pt 7 8]].
Proof.
  split; [reflexivity|].
  exact (proj1 (add_pointarray_failure [xy_pointlist [pt 7 8]] [xy_pointlist [pt 7 8; pt 1 2]]
                  0 (xy_pointlist [pt 7 8]) [pt 1 2; [VNum 3]; pt 1 5] AssertionError
                  eq_refl eq_refl)).
Defined.

(** C3 as stated fails: a batch whose second point has the wrong length
    makes [add_pointarray] fail after the first point has been appended. *)
Lemma add_pointarray_partial_append :
  ∃ e h', PointList.add_pointarray 0 [pt 1 2; [VNum 3]] [xy_pointlist []] = (Raise e, h') ∧
          h' ≠ [xy_pointlist []].
Proof.
  exists AssertionError. eexists. split; [reflexivity|]. discriminate.
Qed.

(** ** Construction *)

Lemma init_run (cs : list coordinate) (cube : DataCube) (data : option (list (list value)))
    (dt : np_dtype) (h : PointList.heap) :
  PointList.__init__ cs cube data dt h =
    match PointList.make_dtype cs dt with
    | Raise e => (Raise e, h)
    | Ret fields =>
        match data with
        | None => (Ret (length h), h ++ [empty_pointlist cs cube dt fields])
        | Some batch =>
            match PointList.add_pointarray (length h) batch
                    (h ++ [empty_pointlist cs cube dt fields]) with
            | (Ret _, h') => (Ret (length h), h')
            | (Raise e, h') => (Raise e, h')
            end
        end
    end.
Proof.
  unfold PointList.__init__, lift, mbind, M_bind, PointList.alloc.
  destruct (PointList.make_dtype cs dt) as [fields|e]; [|done].
  destruct data as [batch|]; [|done].
  fold (empty_pointlist cs cube dt fields).
  by destruct (PointList.add_pointarray _ _ _) as [[[]|e] h'].
Qed.

(** C10.  [add_pointarray] reads the first point of the batch before
    anything else, so an empty batch raises [IndexError] instead of doing
    nothing; a constructor given an empty batch as initial data therefore
    fails, whatever its other arguments, and a constructor given no initial
    data returns an empty table whose counter is 0. *)
Theorem empty_batch_fails (h : PointList.heap) (self : loc) (o : PointList.t)
    (cs : list coordinate) (cube : DataCube) (dt : np_dtype) (fields : fields_t) :
  h !! self = Some o →
  PointList.make_dtype cs dt = Ret fields →
  PointList.add_pointarray self [] h = (Raise IndexError, h) ∧
  PointList.__init__ cs cube (Some []) dt h =
    (Raise IndexError, h ++ [empty_pointlist cs cube dt fields]) ∧
  (∀ cs' cube' dt', ∃ e h', PointList.__init__ cs' cube' (Some []) dt' h = (Raise e, h')) ∧
  PointList.__init__ cs cube None dt h =
    (Ret (length h), h ++ [empty_pointlist cs cube dt fields]) ∧
  PointList.length (empty_pointlist cs cube dt fields) = 0%Z ∧
  PointList.data (empty_pointlist cs cube dt fields) = [].
Proof.
  intros Hs Hdt. split; [by rewrite (add_pointarray_run _ _ _ _ Hs)|].
  assert (Hnew : ∀ cs' cube' dt' fields',
            PointList.add_pointarray (length h) []
              (h ++ [empty_pointlist cs' cube' dt' fields']) =
            (Raise IndexError, h ++ [empty_pointlist cs' cube' dt' fields'])).
  { intros. rewrite (add_pointarray_run _ _ (empty_pointlist cs' cube' dt' fields')); [done|].
    by rewrite lookup_app_r, Nat.sub_diag by lia. }
  split; [by rewrite init_run, Hdt, Hnew|]. split.
  - intros cs' cube' dt'. rewrite init_run.
    destruct (PointList.make_dtype cs' dt') as [fields'|e]; [|by eauto].
    rewrite Hnew. by eauto.
  - by rewrite init_run, Hdt.
Qed.

Lemma empty_batch_fails_witness :
  PointList.add_pointarray 0 [] [xy_pointlist [pt 1 2]] =
    (Raise IndexError, [xy_pointlist [pt 1 2]]) ∧
  PointList.__init__ xy_coordinates sample_cube (Some []) (Scalar Float) [xy_pointlist [pt 1 2]] =
    (Raise IndexError, [xy_pointlist [pt 1 2]; xy_pointlist []]) ∧
  PointList.__init__ xy_coordinates sample_cube None (Scalar Float) [xy_pointlist [pt 1 2]] =
    (Ret 1, [xy_pointlist [pt 1 2]; xy_pointlist []]).
Proof.
  destruct (empty_batch_fails [xy_pointlist [pt 1 2]] 0 (xy_pointlist [pt 1 2])
              xy_coordinates sample_cube (Scalar Float) xy_dtype eq_refl eq_refl)
    as (H1 & H2 & _ & H3 & _).
  exact (conj H1 (conj H2 H3)).
Defined.

(** ** [add_pointlist] *)

Lemma dtype_eqb_eq (a b : np_dtype) : dtype_eqb a b = true ↔ a = b.
Proof.
  revert b. induction a as [k|fs IH] using np_dtype_fields_ind; intros [k'|gs]; simpl;
    try (split; [done | discriminate]).
  - destruct k, k'; simpl; split; (done || discriminate).
  - revert gs. induction IH as [|[n t] fs IHt _ IHfs]; intros [|[m u] gs];
      try (split; [done | discriminate]); [done|].
    rewrite !andb_true_iff, bool_decide_eq_true, IHt, IHfs. simpl in *.
    split.
    + intros [[-> ->] [= ->]]. done.
    + intros [= -> -> ->]. done.
Qed.

(** C6.  When the dtypes of the two point lists are the same,
    [add_pointlist] appends the records of the other list, in their order,
    after the records of this one and adds the other counter to this
    counter; every point list other than this one is untouched, and so is
    the other list, an object of its own.  When the dtypes differ the call
    fails and nothing changes. *)
Theorem add_pointlist_spec (h : PointList.heap) (a b : loc) (oa ob : PointList.t) :
  h !! a = Some oa →
  h !! b = Some ob →
  (PointList.dtype oa = PointList.dtype ob →
     ∃ h', PointList.add_pointlist a b h = (Ret (), h') ∧
           h' !! a = Some (updated oa (PointList.length oa + PointList.length ob)
                                      (PointList.data oa ++ PointList.data ob)) ∧
           (∀ c, c ≠ a → h' !! c = h !! c) ∧
           (a ≠ b → h' !! b = Some ob)) ∧
  (PointList.dtype oa ≠ PointList.dtype ob →
     PointList.add_pointlist a b h = (Raise AssertionError, h)).
Proof.
  intros Ha Hb. rewrite (add_pointlist_run _ _ _ _ _ Ha Hb). split.
  - intros Heq. rewrite (proj2 (dtype_eqb_eq _ _)) by (by rewrite Heq).
    eexists. split; [done|]. split; [|split].
    + apply list_lookup_insert_eq. eauto using lookup_lt_Some.
    + intros c Hc. by apply list_lookup_insert_ne.
    + intros Hab. by rewrite list_lookup_insert_ne.
  - intros Hne. destruct (dtype_eqb _ _) eqn:Heq; [|done].
    apply dtype_eqb_eq in Heq. congruence.
Qed.

Lemma add_pointlist_spec_witness :
  (∃ h', PointList.add_pointlist 0 1 [xy_pointlist [pt 1 2]; xy_pointlist [pt 3 4; pt 1 5]]
           = (Ret (), h') ∧
         h' !! 0 = Some (xy_pointlist [pt 1 2; pt 3 4; pt 1 5]) ∧
         h' !! 1 = Some (xy_pointlist [pt 3 4; pt 1 5])) ∧
  PointList.add_pointlist 0 1
      [xy_pointlist [pt 1 2];
       PointList.mk [CStr "x"] sample_cube (Scalar Float) 0 [("x", Scalar Float)] []] =
    (Raise AssertionError,
      [xy_pointlist [pt 1 2];
       PointList.mk [CStr "x"] sample_cube (Scalar Float) 0 [("x", Scalar Float)] []]).
Proof.
  split.
  - destruct (proj1 (add_pointlist_spec
                [xy_pointlist [pt 1 2]; xy_pointlist [pt 3 4; pt 1 5]] 0 1
                (xy_pointlist [pt 1 2]) (xy_pointlist [pt 3 4; pt 1 5]) eq_refl eq_refl)
              eq_refl) as (h' & Hrun & Ha & _ & Hb).
    exists h'. split; [exact Hrun|]. split; [exact Ha|]. apply Hb. discriminate.
  - apply (add_pointlist_spec
             [xy_pointlist [pt 1 2];
              PointList.mk [CStr "x"] sample_cube (Scalar Float) 0 [("x", Scalar Float)] []]
             0 1 (xy_pointlist [pt 1 2])
             (PointList.mk [CStr "x"] sample_cube (Scalar Float) 0 [("x", Scalar Float)] [])
             eq_refl eq_refl).
    discriminate.
Defined.

(** When one object is handed in as the other point list, which the
    docstring does not provide for, the call appends the records of the
    table to the table itself. *)
Lemma add_pointlist_self_modifies :
  ∃ h', PointList.add_pointlist 0 0 [xy_pointlist [pt 1 2]] = (Ret (), h') ∧
        h' !! 0 = Some (xy_pointlist [pt 1 2; pt 1 2]) ∧
        h' !! 0 ≠ [xy_pointlist [pt 1 2]] !! 0.
Proof.
  eexists. split; [reflexivity|]. split; [reflexivity | discriminate].
Qed.

(** ** [sort] *)

Section sorting.
Implicit Types (a b : value) (l : list row) (k : nat).

Lemma value_compare_antisym a b : value_compare b a = CompOpp (value_compare a b).
Proof.
  revert b. induction a as [x|xs IH] using value_items_ind; intros [y|ys]; simpl; try done.
  - apply Z.compare_antisym.
  - revert ys. induction IH as [|x xs IHx _ IHxs]; intros [|y ys]; simpl; try done.
    rewrite IHx. destruct (value_compare x y); simpl; [apply IHxs | done | done].
Qed.

Lemma key_leb_total k (r r' : row) : key_leb k r r' = false → key_leb k r' r = true.
Proof.
  unfold key_leb, row_compare.
  rewrite (value_compare_antisym (VTuple (sort_key k r)) (VTuple (sort_key k r'))).
  by destruct (value_compare (VTuple (sort_key k r)) _).
Qed.

Lemma insert_sorted_perm k (x : row) l : insert_sorted k x l ≡ₚ x :: l.
Proof.
  induction l as [|y l IH]; simpl; [done|].
  destruct (key_leb k x y); [done|]. by rewrite IH, Permutation_swap.
Qed.

Lemma np_sort_perm k l : np_sort k l ≡ₚ l.
Proof.
  induction l as [|x l IH]; simpl; [done|]. by rewrite insert_sorted_perm, IH.
Qed.

Lemma insert_sorted_ordered k (x : row) l : ordered k l → ordered k (insert_sorted k x l).
Proof.
  unfold ordered. induction 1 as [|y l Hl IH Hhd]; simpl.
  - repeat constructor.
  - destruct (key_leb k x y) eqn:Hxy.
    + constructor; [by constructor | by constructor].
    + constructor; [done|].
      apply key_leb_total in Hxy.
      destruct l as [|z l]; simpl in *; [by constructor|].
      destruct (key_leb k x z); constructor; [done|]. by inversion Hhd.
Qed.

Lemma np_sort_ordered k l : ordered k (np_sort k l).
Proof.
  induction l as [|x l IH]; simpl; [constructor | by apply insert_sorted_ordered].
Qed.

(** Sorting a sequence that is in order already changes nothing. *)
Lemma np_sort_ordered_id k l : ordered k l → np_sort k l = l.
Proof.
  unfold ordered. induction 1 as [|x l Hl IH Hhd]; simpl; [done|].
  rewrite IH. destruct Hhd as [|y l Hxy]; simpl; [done|]. by rewrite Hxy.
Qed.

End sorting.

(** C5.  For a field of the dtype, both orders of [sort] succeed, and the
    records left by the descending sort are the exact reverse of the records
    left by the ascending sort of the same table, record for record, ties
    included; sorting descending after sorting ascending gives that same
    reverse.  The ascending result is a rearrangement of the records, in
    the order of the field. *)
Theorem sort_descending_reverses_ascending (h : PointList.heap) (self : loc)
    (o : PointList.t) (coordinate : string) :
  h !! self = Some o →
  coordinate ∈ (PointList.dtype o).*1 →
  ∃ (k : nat) (asc : list row),
    field_index coordinate (PointList.dtype o).*1 = Some k ∧
    asc ≡ₚ PointList.data o ∧
    ordered k asc ∧
    PointList.sort self coordinate "ascending" h =
      (Ret (), <[self := PointList.set_data o asc]> h) ∧
    PointList.sort self coordinate "descending" h =
      (Ret (), <[self := PointList.set_data o (reverse asc)]> h) ∧
    PointList.sort self coordinate "descending" (<[self := PointList.set_data o asc]> h) =
      (Ret (), <[self := PointList.set_data o (reverse asc)]> h).
Proof.
  intros Hs Hin. apply field_index_is_Some in Hin as [k Hk].
  exists k, (np_sort k (PointList.data o)).
  split; [done|]. split; [apply np_sort_perm|]. split; [apply np_sort_ordered|].
  rewrite !(sort_run _ _ _ _ _ Hs), Hk. split; [done|]. split; [done|].
  erewrite sort_run by (apply list_lookup_insert_eq; eauto using lookup_lt_Some).
  simpl. rewrite Hk. simpl.
  rewrite (np_sort_ordered_id k (np_sort k (PointList.data o))) by apply np_sort_ordered.
  by rewrite list_insert_insert_eq.
Qed.

Lemma sort_descending_reverses_ascending_witness :
  PointList.sort 0 "y" "ascending" [xy_pointlist [pt 1 2; pt 3 4; pt 1 5; pt 0 4]] =
    (Ret (), [xy_pointlist [pt 1 2; pt 0 4; pt 3 4; pt 1 5]]) ∧
  PointList.sort 0 "y" "descending" [xy_pointlist [pt 1 2; pt 3 4; pt 1 5; pt 0 4]] =
    (Ret (), [xy_pointlist (reverse [pt 1 2; pt 0 4; pt 3 4; pt 1 5])]).
Proof.
  destruct (sort_descending_reverses_ascending
              [xy_pointlist [pt 1 2; pt 3 4; pt 1 5; pt 0 4]] 0
              (xy_pointlist [pt 1 2; pt 3 4; pt 1 5; pt 0 4]) "y" eq_refl)
    as (k & asc & _ & _ & _ & Hasc & Hdesc & _).
  - apply list_elem_of_In. simpl. auto.
  - split; [reflexivity|].
    assert (asc = [pt 1 2; pt 0 4; pt 3 4; pt 1 5]) as ->.
    { assert (Heq : (Ret (), <[0 := PointList.set_data
                (xy_pointlist [pt 1 2; pt 3 4; pt 1 5; pt 0 4]) asc]>
                [xy_pointlist [pt 1 2; pt 3 4; pt 1 5; pt 0 4]]) =
              (Ret (), [xy_pointlist [pt 1 2; pt 0 4; pt 3 4; pt 1 5]]))
        by (rewrite <- Hasc; reflexivity).
      by injection Heq. }
    exact Hdesc.
Defined.

(** ** [PointListArray] *)

Section grid.
Context (cs : list coordinate) (cube : DataCube) (dt : np_dtype) (fields : fields_t).
Hypothesis Hdt : PointList.make_dtype cs dt = Ret fields.

Lemma comprehension_cells (inner : list Z) : ∀ h : PointList.heap,
  comprehension inner (λ _, PointList.__init__ cs cube None dt) h =
    (Ret (seq (length h) (length inner)),
     h ++ replicate (length inner) (empty_pointlist cs cube dt fields)).
Proof using Hdt.
  induction inner as [|j inner IH]; intros h; simpl.
  - by rewrite app_nil_r.
  - unfold mbind, M_bind. rewrite init_run, Hdt, IH.
    rewrite length_app, Nat.add_1_r, <-app_assoc. done.
Qed.

Lemma grid_locs_S base R C : grid_locs base (S R) C = seq base C :: grid_locs (base + C) R C.
Proof.
  unfold grid_locs. simpl. rewrite Nat.add_0_r. f_equal.
  rewrite <-fmap_S_seq, <-list_fmap_compose. apply list_fmap_ext.
  intros _ i _. simpl. f_equal. lia.
Qed.

Lemma comprehension_rows (inner outer : list Z) : ∀ h : PointList.heap,
  comprehension outer (λ _,
      inner' ← lift (Ret inner);
      comprehension inner' (λ _, PointList.__init__ cs cube None dt)) h =
    (Ret (grid_locs (length h) (length outer) (length inner)),
     h ++ replicate (length outer * length inner) (empty_pointlist cs cube dt fields)).
Proof using Hdt.
  induction outer as [|i outer IH]; intros h; simpl.
  - by rewrite app_nil_r.
  - unfold mbind, M_bind, lift at 1. rewrite comprehension_cells.
    fold (@mbind (M PointList.heap) _). unfold mbind, M_bind in IH. rewrite IH.
    rewrite grid_locs_S, length_app, length_replicate, <-app_assoc, <-replicate_add.
    done.
Qed.

End grid.

Lemma concat_grid_locs (base R C : nat) : concat (grid_locs base R C) = seq base (R * C).
Proof.
  revert base. induction R as [|R IH]; intros base; [done|].
  rewrite grid_locs_S. simpl. rewrite IH. by rewrite <-seq_app.
Qed.

Lemma grid_locs_shape (base R C : nat) :
  length (grid_locs base R C) = R ∧ Forall (λ r, length r = C) (grid_locs base R C).
Proof.
  unfold grid_locs. split.
  - by rewrite length_fmap, length_seq.
  - apply Forall_fmap, Forall_forall. intros i _. apply length_seq.
Qed.

Lemma py_index_spec {A : Type} (l : list A) (i : Z) :
  ((- Z.of_nat (length l) ≤ i < Z.of_nat (length l))%Z →
     ∃ x, l !! Z.to_nat (i `mod` Z.of_nat (length l)) = Some x ∧ py_index l i = Ret x) ∧
  (¬ (- Z.of_nat (length l) ≤ i < Z.of_nat (length l))%Z → py_index l i = Raise IndexError).
Proof.
  unfold py_index. set (n := Z.of_nat (length l)).
  split.
  - intros Hi.
    assert (Hk : (i `mod` n = if (i <? 0)%Z then n + i else i)%Z).
    { destruct (Z.ltb_spec i 0).
      - symmetry. apply Z.mod_unique with (q := (-1)%Z); lia.
      - apply Z.mod_small. lia. }
    rewrite <-Hk.
    assert (0 ≤ i `mod` n < n)%Z as Hb by (apply Z.mod_pos_bound; lia).
    destruct (Z.leb_spec 0 (i `mod` n)); [|lia].
    destruct (Z.ltb_spec (i `mod` n) n); [|lia]. simpl.
    destruct (l !! Z.to_nat (i `mod` n)) as [x|] eqn:Hl; [eauto|].
    apply lookup_ge_None_1 in Hl. lia.
  - intros Hi.
    destruct (Z.ltb_spec i 0).
    + destruct (Z.leb_spec 0 (n + i)); [|done].
      destruct (Z.ltb_spec (n + i) n); [lia | done].
    + destruct (Z.leb_spec 0 i); [|done].
      destruct (Z.ltb_spec i n); [lia | done].
Qed.

(** C9 (as amended).  The constructor of [PointListArray] fails with
    [AssertionError] unless the explicit shape is a tuple of length two, and
    with [TypeError] when the first item of the tuple is no integer; positivity
    is not required.  For a tuple of two integers [(R, C)] and coordinates
    that define a dtype it succeeds and allocates [max R 0 * max C 0] new,
    pairwise distinct, empty point lists with these coordinates and this
    parent, arranged in [max R 0] rows of [max C 0] cells: [R * C] tables
    when both are positive, and a grid without cells, not a failure, when one
    of them is zero or negative.  Point lists that existed before are not
    touched. *)
Theorem grid_construction (cs : list coordinate) (cube : DataCube) (dt : np_dtype)
    (h : PointList.heap) :
  PointListArray.__init__ cs cube ShapeOther dt h = (Raise AssertionError, h) ∧
  (∀ items, length items ≠ 2 →
     PointListArray.__init__ cs cube (ShapeTuple items) dt h = (Raise AssertionError, h)) ∧
  (∀ x, PointListArray.__init__ cs cube (ShapeTuple [SOther; x]) dt h = (Raise TypeError, h)) ∧
  (∀ (R C : Z) (fields : fields_t),
     PointList.make_dtype cs dt = Ret fields →
     ∃ g h',
       PointListArray.__init__ cs cube (ShapeTuple [SInt R; SInt C]) dt h = (Ret g, h') ∧
       PointListArray.shape g = (SInt R, SInt C) ∧
       grid_shape g (Z.to_nat R) (Z.to_nat C) ∧
       length (concat (PointListArray.pointlists g)) = Z.to_nat R * Z.to_nat C ∧
       NoDup (concat (PointListArray.pointlists g)) ∧
       (∀ l, l ∈ concat (PointListArray.pointlists g) →
             length h ≤ l ∧ h' !! l = Some (empty_pointlist cs cube dt fields)) ∧
       (∀ l, l < length h → h' !! l = h !! l)).
Proof.
  split; [done|]. split; [|split].
  - intros items Hlen. unfold PointListArray.__init__. unfold_M.
    destruct (_ =? _) eqn:Heq; [|done]. by apply Nat.eqb_eq in Heq.
  - done.
  - intros R C fields Hdt.
    eexists (PointListArray.mk cs cube dt (SInt R, SInt C)
               (grid_locs (length h) (Z.to_nat R) (Z.to_nat C))), _.
    split.
    { unfold PointListArray.__init__. simpl.
      unfold mbind at 1 2 3, M_bind at 1 2 3. simpl.
      rewrite (comprehension_rows cs cube dt fields Hdt (seqZ 0 C) (seqZ 0 R) h).
      rewrite !length_seqZ. reflexivity. }
    simpl. split; [done|]. split; [apply grid_locs_shape|].
    rewrite concat_grid_locs. split; [apply length_seq|]. split; [apply NoDup_seq|].
    split.
    + intros l [Hge Hlt]%elem_of_seq. split; [done|].
      rewrite lookup_app_r by done.
      apply lookup_replicate_2. lia.
    + intros l Hl. by rewrite lookup_app_l.
Qed.

Lemma grid_construction_witness :
  ∃ g h',
    PointListArray.__init__ xy_coordinates sample_cube (ShapeTuple [SInt 3; SInt 4])
        (Scalar Float) [xy_pointlist [pt 1 2]] = (Ret g, h') ∧
    grid_shape g 3 4 ∧
    NoDup (concat (PointListArray.pointlists g)) ∧
    (∀ l, l ∈ concat (PointListArray.pointlists g) →
          1 ≤ l ∧ h' !! l = Some (xy_pointlist [])).
Proof.
  destruct (proj2 (proj2 (proj2 (grid_construction xy_coordinates sample_cube (Scalar Float)
              [xy_pointlist [pt 1 2]]))) 3%Z 4%Z xy_dtype eq_refl)
    as (g & h' & Hrun & _ & Hshape & _ & Hdup & Hcells & _).
  exists g, h'. split; [exact Hrun|]. split; [exact Hshape|]. split; [exact Hdup|].
  exact Hcells.
Defined.

(** C9 as stated fails: a shape whose first item is zero is accepted, and
    the constructor returns a grid without cells. *)
Lemma grid_construction_zero_rows :
  PointListArray.__init__ xy_coordinates sample_cube (ShapeTuple [SInt 0; SInt 5])
      (Scalar Float) [] =
    (Ret (PointListArray.mk xy_coordinates sample_cube (Scalar Float) (SInt 0, SInt 5) []), []).
Proof. reflexivity. Qed.

(** ** [get_pointlist] *)

(** C2 (as amended).  On a grid of [R] rows of [C] cells, [get_pointlist]
    returns the point list of cell [(i, j)] for [i] in [0, R) and [j] in
    [0, C); a negative index counts from the end, as Python lists have it,
    so [i] in [-R, 0) selects row [R + i] and [j] in [-C, 0) selects cell
    [C + j]; every other pair of integers raises [IndexError]. *)
Theorem get_pointlist_spec (g : PointListArray.t) (R C : nat) (i j : Z) :
  grid_shape g R C →
  (((- Z.of_nat R ≤ i < Z.of_nat R) ∧ (- Z.of_nat C ≤ j < Z.of_nat C))%Z →
     ∃ r l, PointListArray.pointlists g !! Z.to_nat (i `mod` Z.of_nat R) = Some r ∧
            r !! Z.to_nat (j `mod` Z.of_nat C) = Some l ∧
            PointListArray.get_pointlist g i j = Ret l) ∧
  ((0 ≤ i < Z.of_nat R ∧ 0 ≤ j < Z.of_nat C)%Z →
     ∃ r l, PointListArray.pointlists g !! Z.to_nat i = Some r ∧
            r !! Z.to_nat j = Some l ∧
            PointListArray.get_pointlist g i j = Ret l) ∧
  (¬ ((- Z.of_nat R ≤ i < Z.of_nat R) ∧ (- Z.of_nat C ≤ j < Z.of_nat C))%Z →
     PointListArray.get_pointlist g i j = Raise IndexError).
Proof.
  intros [HR HC]. unfold PointListArray.get_pointlist.
  assert (Hin : ((- Z.of_nat R ≤ i < Z.of_nat R) ∧ (- Z.of_nat C ≤ j < Z.of_nat C))%Z →
     ∃ r l, PointListArray.pointlists g !! Z.to_nat (i `mod` Z.of_nat R) = Some r ∧
            r !! Z.to_nat (j `mod` Z.of_nat C) = Some l ∧
            (py_index (PointListArray.pointlists g) i ≫= λ r, py_index r j) = Ret l).
  { intros [Hi Hj].
    destruct (proj1 (py_index_spec (PointListArray.pointlists g) i)) as (r & Hr & ->);
      [by rewrite HR|].
    rewrite HR in Hr.
    assert (length r = C) as Hlen
      by (eapply (proj1 (Forall_forall _ _) HC), list_elem_of_lookup_2, Hr).
    destruct (proj1 (py_index_spec r j)) as (l & Hl & Hrun); [by rewrite Hlen|].
    rewrite Hlen in Hl. by exists r, l. }
  split; [done|]. split.
  - intros [Hi Hj]. destruct Hin as (r & l & Hr & Hl & Hrun); [lia|].
    rewrite Z.mod_small in Hr, Hl by lia. by exists r, l.
  - intros Hout.
    destruct (decide (- Z.of_nat R ≤ i < Z.of_nat R)%Z) as [Hi|Hi].
    + destruct (proj1 (py_index_spec (PointListArray.pointlists g) i)) as (r & Hr & ->);
        [by rewrite HR|].
      rewrite HR in Hr.
      assert (length r = C) as Hlen
        by (eapply (proj1 (Forall_forall _ _) HC), list_elem_of_lookup_2, Hr).
      simpl. apply py_index_spec. rewrite Hlen. tauto.
    + rewrite (proj2 (py_index_spec (PointListArray.pointlists g) i)); [done|].
      by rewrite HR.
Qed.

Lemma get_pointlist_spec_witness :
  PointListArray.get_pointlist
    (PointListArray.mk xy_coordinates sample_cube (Scalar Float) (SInt 3, SInt 4)
       (grid_locs 0 3 4)) 3 0 = Raise IndexError ∧
  PointListArray.get_pointlist
    (PointListArray.mk xy_coordinates sample_cube (Scalar Float) (SInt 3, SInt 4)
       (grid_locs 0 3 4)) 0 4 = Raise IndexError ∧
  ∃ r l, grid_locs 0 3 4 !! 2 = Some r ∧ r !! 1 = Some l ∧
    PointListArray.get_pointlist
      (PointListArray.mk xy_coordinates sample_cube (Scalar Float) (SInt 3, SInt 4)
         (grid_locs 0 3 4)) 2 1 = Ret l.
Proof.
  pose proof (get_pointlist_spec
    (PointListArray.mk xy_coordinates sample_cube (Scalar Float) (SInt 3, SInt 4)
       (grid_locs 0 3 4)) 3 4) as H.
  split; [|split].
  - apply (H 3%Z 0%Z (grid_locs_shape 0 3 4)). simpl. lia.
  - apply (H 0%Z 4%Z (grid_locs_shape 0 3 4)). simpl. lia.
  - apply (H 2%Z 1%Z (grid_locs_shape 0 3 4)). simpl. lia.
Defined.

(** C2 as stated fails: on the grid the constructor builds for the shape
    [(3, 4)] the negative row index [-1] does not fail, it selects the last
    row, the one [get_pointlist] returns for the index [2]. *)
Lemma get_pointlist_negative_index :
  ∃ g h',
    PointListArray.__init__ xy_coordinates sample_cube (ShapeTuple [SInt 3; SInt 4])
        (Scalar Float) [] = (Ret g, h') ∧
    grid_shape g 3 4 ∧
    PointListArray.get_pointlist g (-1) 0 = Ret 8 ∧
    PointListArray.get_pointlist g 2 0 = Ret 8.
Proof.
  eexists _, _. split; [reflexivity|]. split; [|split; reflexivity].
  split; [reflexivity|]. repeat constructor.
Qed.

(** ** The counter and the array of records *)

Section invariant.
Implicit Types (h : PointList.heap) (o : PointList.t) (self : loc).

Lemma preserves_ret {A : Type} (a : A) : preserves (mret a).
Proof. by intros h Hh. Qed.

Lemma preserves_raise {A : Type} (e : exn) : preserves (raise (A := A) e).
Proof. by intros h Hh. Qed.

Lemma preserves_lift {A : Type} (r : res A) : preserves (lift r).
Proof. by intros h Hh. Qed.

Lemma preserves_assert (b : bool) : preserves (assert (S := PointList.heap) b).
Proof. intros h Hh. by destruct b. Qed.

Lemma preserves_get self : preserves (PointList.get self).
Proof. intros h Hh. unfold PointList.get. by destruct (h !! self). Qed.

Lemma preserves_alloc o : count_inv o → preserves (PointList.alloc o).
Proof.
  intros Ho h Hh. unfold PointList.alloc. simpl.
  apply Forall_app_2; [done | by apply Forall_singleton].
Qed.

Lemma preserves_bind {A B : Type} (m : M PointList.heap A) (f : A → M PointList.heap B) :
  preserves m → (∀ a, preserves (f a)) → preserves (m ≫= f).
Proof.
  intros Hm Hf h Hh. unfold mbind, M_bind. specialize (Hm h Hh).
  destruct (m h) as [[a|e] h']; simpl in *; [by apply Hf | done].
Qed.

Lemma preserves_for_each {A : Type} (l : list A) (body : A → M PointList.heap ()) :
  (∀ x, preserves (body x)) → preserves (for_each l body).
Proof.
  intros Hbody. induction l as [|x l IH]; simpl.
  - apply preserves_ret.
  - apply preserves_bind; [apply Hbody | by intros _].
Qed.

(** A method that starts by reading [self] preserves the invariant as soon
    as it does so on the stores where [self] is allocated. *)
Lemma preserves_allocated {A : Type} self (k : PointList.t → M PointList.heap A) :
  (∀ h o, h !! self = Some o → heap_inv h → heap_inv ((PointList.get self ≫= k) h).2) →
  preserves (PointList.get self ≫= k).
Proof.
  intros Hk h Hh. destruct (h !! self) as [o|] eqn:Hs; [by eapply Hk|].
  unfold mbind, M_bind, PointList.get. by rewrite Hs.
Qed.

Lemma count_inv_lookup h self o : heap_inv h → h !! self = Some o → count_inv o.
Proof. intros Hh Hs. exact (Forall_lookup_1 _ _ _ _ Hh Hs). Qed.

Lemma preserves_add_point self point : preserves (PointList.add_point self point).
Proof.
  apply preserves_allocated. intros h o Hs Hh.
  fold (PointList.add_point self point). rewrite (add_point_run _ _ _ _ Hs).
  destruct (_ =? _); [|done]. destruct (np_array _ _) as [r|]; [|done]. simpl.
  apply Forall_insert; [done|].
  pose proof (count_inv_lookup _ _ _ Hh Hs) as Ho. unfold count_inv in *. simpl.
  rewrite length_app. simpl. lia.
Qed.

Lemma preserves_add_pointarray self batch : preserves (PointList.add_pointarray self batch).
Proof.
  unfold PointList.add_pointarray.
  apply preserves_bind; [apply preserves_get|]. intros o.
  apply preserves_bind; [apply preserves_lift|]. intros first.
  apply preserves_bind; [apply preserves_assert|]. intros _.
  apply preserves_for_each, preserves_add_point.
Qed.

Lemma preserves_init cs cube data dt : preserves (PointList.__init__ cs cube data dt).
Proof.
  unfold PointList.__init__.
  apply preserves_bind; [apply preserves_lift|]. intros fields.
  apply preserves_bind; [by apply preserves_alloc|]. intros self.
  destruct data as [batch|]; [|apply preserves_ret].
  apply preserves_bind; [apply preserves_add_pointarray|]. intros _. apply preserves_ret.
Qed.

Lemma preserves_copy self : preserves (PointList.copy self).
Proof.
  unfold PointList.copy.
  apply preserves_bind; [apply preserves_get|]. intros o. apply preserves_init.
Qed.

Lemma preserves_add_pointlist self other : preserves (PointList.add_pointlist self other).
Proof.
  apply preserves_allocated. intros h o Hs Hh.
  fold (PointList.add_pointlist self other).
  destruct (h !! other) as [p|] eqn:Ho.
  - rewrite (add_pointlist_run _ _ _ _ _ Hs Ho). destruct (dtype_eqb _ _); [|done]. simpl.
    apply Forall_insert; [done|].
    pose proof (count_inv_lookup _ _ _ Hh Hs). pose proof (count_inv_lookup _ _ _ Hh Ho).
    unfold count_inv in *. simpl. rewrite length_app. lia.
  - unfold PointList.add_pointlist, mbind, M_bind, PointList.get. by rewrite Hs, Ho.
Qed.

Lemma preserves_sort self coordinate order : preserves (PointList.sort self coordinate order).
Proof.
  apply preserves_allocated. intros h o Hs Hh.
  fold (PointList.sort self coordinate order). rewrite (sort_run _ _ _ _ _ Hs).
  pose proof (count_inv_lookup _ _ _ Hh Hs) as Ho. unfold count_inv in Ho.
  destruct (field_index _ _) as [k|]; [|done].
  repeat case_bool_decide; simpl; try done; (apply Forall_insert; [done|]);
    unfold count_inv; simpl; rewrite ?length_reverse, (Permutation_length (np_sort_perm k _));
    done.
Qed.

Lemma count_true_none (mask : list bool) :
  (∀ i, mask !! i ≠ Some true) → count_true mask = 0.
Proof.
  unfold count_true. induction mask as [|b mask IH]; intros Hm; [done|].
  destruct b; [by destruct (Hm 0)|].
  rewrite filter_cons_False by done. apply IH. intros i. apply (Hm (S i)).
Qed.

(** In range, a mask deletes as many elements as it has true entries. *)
Lemma length_unmarked {A : Type} (mask : list bool) : ∀ arr : list A,
  (∀ i, mask !! i = Some true → i < length arr) →
  length (unmarked arr mask ++ drop (length mask) arr) + count_true mask = length arr.
Proof.
  unfold unmarked, count_true.
  induction mask as [|b mask IH]; intros arr Hm.
  - rewrite zip_with_nil_r. simpl. by rewrite Nat.add_0_r.
  - destruct arr as [|x arr].
    + simpl. apply (count_true_none (b :: mask)). intros i Hi. apply Hm in Hi. simpl in Hi. lia.
    + specialize (IH arr). rewrite length_app in IH |- *. simpl zip. simpl drop. simpl length at 2.
      assert (Hm' : ∀ i, mask !! i = Some true → i < length arr).
      { intros i Hi. specialize (Hm (S i) Hi). simpl in Hm. lia. }
      specialize (IH Hm').
      destruct b.
      * rewrite filter_cons_False by (simpl; congruence).
        rewrite filter_cons_True by done.
        rewrite !length_fmap in *. cbn [length]. lia.
      * rewrite filter_cons_True by done.
        rewrite filter_cons_False by done.
        rewrite !length_fmap in *. cbn [length]. lia.
Qed.

Lemma preserves_remove_points self mask : preserves (PointList.remove_points self mask).
Proof.
  apply preserves_allocated. intros h o Hs Hh.
  fold (PointList.remove_points self mask). rewrite (remove_points_run _ _ _ _ Hs).
  unfold np_delete. destruct (forallb _ _) eqn:Hall; [|done]. simpl.
  apply Forall_insert; [done|].
  pose proof (count_inv_lookup _ _ _ Hh Hs) as Ho. unfold count_inv in *. simpl.
  pose proof (length_unmarked mask (PointList.data o) (proj1 (nonzero_in_range _ _) Hall)).
  rewrite delete_from_nonzero, drop_0. unfold nonzero. rewrite length_nonzero_from.
  fold (count_true mask). fold (unmarked (PointList.data o) mask). lia.
Qed.

Lemma preserves_mask_loop o coords_vals : ∀ deletemask,
  preserves (PointList.mask_loop o deletemask coords_vals).
Proof.
  induction coords_vals as [|tup rest IH]; intros deletemask; simpl.
  - apply preserves_ret.
  - apply preserves_bind; [|done]. unfold PointList.mask_step.
    apply preserves_bind; [apply preserves_assert|]. intros _.
    apply preserves_bind; [apply preserves_assert|]. intros _.
    destruct tup.2 as [|val [|maxval [|]]]; try apply preserves_raise;
      (apply preserves_bind; [apply preserves_lift|]); intros col; apply preserves_ret.
Qed.

Lemma preserves_get_subpointlist self coords_vals :
  preserves (PointList.get_subpointlist self coords_vals).
Proof.
  unfold PointList.get_subpointlist.
  apply preserves_bind; [apply preserves_get|]. intros o.
  apply preserves_bind; [apply preserves_mask_loop|]. intros deletemask.
  apply preserves_bind; [apply preserves_copy|]. intros new_pointlist.
  apply preserves_bind; [apply preserves_remove_points|]. intros _. apply preserves_ret.
Qed.

End invariant.

Lemma init_returns_allocated (cs : list coordinate) (cube : DataCube)
    (data : option (list (list value))) (dt : np_dtype) (h h' : PointList.heap) (l : loc) :
  PointList.__init__ cs cube data dt h = (Ret l, h') →
  l = length h ∧ is_Some (h' !! l).
Proof.
  rewrite init_run. destruct (PointList.make_dtype cs dt) as [fields|e]; [|done].
  assert (Hnew : (h ++ [empty_pointlist cs cube dt fields]) !! length h
                 = Some (empty_pointlist cs cube dt fields))
    by (by rewrite lookup_app_r, Nat.sub_diag by lia).
  destruct data as [batch|].
  - rewrite (add_pointarray_run _ _ _ _ Hnew).
    destruct batch as [|first batch]; [done|].
    destruct (_ =? _); [|done].
    rewrite (for_each_add_point_run _ _ _ _ Hnew).
    destruct (rejection _ _); [done|]. intros [= <- <-]. split; [done|].
    rewrite list_lookup_insert_eq by eauto using lookup_lt_Some. eauto.
  - intros [= <- <-]. rewrite Hnew. eauto.
Qed.

(** C8.  In a store where the counter of every point list equals the
    number of its records, the constructor and every method leave it so,
    whether they return or raise; in particular the point list a constructor
    returns has its counter in step.  The empty store, before any
    construction, satisfies the invariant. *)
Theorem count_invariant (h : PointList.heap) :
  heap_inv h →
  (∀ cs cube data dt l h',
     PointList.__init__ cs cube data dt h = (Ret l, h') →
     ∃ o, h' !! l = Some o ∧ PointList.length o = Z.of_nat (length (PointList.data o))) ∧
  (∀ cs cube data dt, heap_inv (PointList.__init__ cs cube data dt h).2) ∧
  (∀ self point, heap_inv (PointList.add_point self point h).2) ∧
  (∀ self batch, heap_inv (PointList.add_pointarray self batch h).2) ∧
  (∀ self other, heap_inv (PointList.add_pointlist self other h).2) ∧
  (∀ self coordinate order, heap_inv (PointList.sort self coordinate order h).2) ∧
  (∀ self coords_vals, heap_inv (PointList.get_subpointlist self coords_vals h).2) ∧
  (∀ self mask, heap_inv (PointList.remove_points self mask h).2) ∧
  (∀ self, heap_inv (PointList.copy self h).2) ∧
  heap_inv [].
Proof.
  intros Hh. split.
  { intros cs cube data dt l h' Hrun.
    destruct (init_returns_allocated _ _ _ _ _ _ _ Hrun) as [_ [o Ho]].
    exists o. split; [done|].
    pose proof (preserves_init cs cube data dt h Hh) as Hh'. rewrite Hrun in Hh'.
    exact (count_inv_lookup _ _ _ Hh' Ho). }
  repeat split; intros.
  - by apply preserves_init.
  - by apply preserves_add_point.
  - by apply preserves_add_pointarray.
  - by apply preserves_add_pointlist.
  - by apply preserves_sort.
  - by apply preserves_get_subpointlist.
  - by apply preserves_remove_points.
  - by apply preserves_copy.
  - constructor.
Qed.

Lemma count_invariant_witness :
  heap_inv [xy_pointlist [pt 1 2; pt 3 4]; xy_pointlist []] ∧
  heap_inv (PointList.remove_points 0 [true] [xy_pointlist [pt 1 2; pt 3 4]; xy_pointlist []]).2 ∧
  heap_inv (PointList.add_pointlist 1 0 [xy_pointlist [pt 1 2; pt 3 4]; xy_pointlist []]).2 ∧
  heap_inv (PointList.get_subpointlist 0 [("x", [1%Z])]
              [xy_pointlist [pt 1 2; pt 3 4]; xy_pointlist []]).2.
Proof.
  assert (H0 : heap_inv [xy_pointlist [pt 1 2; pt 3 4]; xy_pointlist []])
    by (repeat constructor).
  destruct (count_invariant _ H0) as (_ & _ & _ & _ & Hmerge & _ & Hfilter & Hremove & _).
  split; [exact H0|]. split; [apply Hremove|]. split; [apply Hmerge | apply Hfilter].
Defined.

(** ** What a method writes to *)

Section frame.
Implicit Types (h : PointList.heap) (o : PointList.t) (self : loc).

Lemma modifies_only_bind {A B : Type} self (m : M PointList.heap A)
    (f : A → M PointList.heap B) :
  modifies_only self m → (∀ a, modifies_only self (f a)) → modifies_only self (m ≫= f).
Proof.
  intros Hm Hf h l Hl. unfold mbind, M_bind. specialize (Hm h l Hl).
  destruct (m h) as [[a|e] h']; simpl in *; [|done]. by rewrite Hf.
Qed.

Lemma modifies_only_unchanged {A : Type} self (m : M PointList.heap A) :
  (∀ h, (m h).2 = h) → modifies_only self m.
Proof. intros Hm h l _. by rewrite Hm. Qed.

Lemma modifies_only_get self : modifies_only self (PointList.get self).
Proof.
  apply modifies_only_unchanged. intros h. unfold PointList.get. by destruct (h !! self).
Qed.

Lemma modifies_only_put self o : modifies_only self (PointList.put self o).
Proof. intros h l Hl. simpl. by apply list_lookup_insert_ne. Qed.

Lemma modifies_only_assert self (b : bool) : modifies_only self (assert b).
Proof. apply modifies_only_unchanged. intros h. by destruct b. Qed.

Lemma modifies_only_for_each {A : Type} self (l : list A) (body : A → M PointList.heap ()) :
  (∀ x, modifies_only self (body x)) → modifies_only self (for_each l body).
Proof.
  intros Hbody. induction l as [|x l IH]; simpl.
  - by apply modifies_only_unchanged.
  - apply modifies_only_bind; [apply Hbody | by intros _].
Qed.

Lemma modifies_only_add_point self point : modifies_only self (PointList.add_point self point).
Proof.
  unfold PointList.add_point.
  apply modifies_only_bind; [apply modifies_only_get|]. intros o.
  apply modifies_only_bind; [apply modifies_only_assert|]. intros _.
  apply modifies_only_bind; [by apply modifies_only_unchanged|]. intros r.
  apply modifies_only_bind; [apply modifies_only_put|]. intros _.
  apply modifies_only_bind; [apply modifies_only_get|]. intros o'.
  apply modifies_only_put.
Qed.

Lemma modifies_only_add_pointarray self batch :
  modifies_only self (PointList.add_pointarray self batch).
Proof.
  unfold PointList.add_pointarray.
  apply modifies_only_bind; [apply modifies_only_get|]. intros o.
  apply modifies_only_bind; [by apply modifies_only_unchanged|]. intros first.
  apply modifies_only_bind; [apply modifies_only_assert|]. intros _.
  apply modifies_only_for_each, modifies_only_add_point.
Qed.

Lemma modifies_only_remove_points self mask :
  modifies_only self (PointList.remove_points self mask).
Proof.
  unfold PointList.remove_points.
  apply modifies_only_bind; [apply modifies_only_get|]. intros o.
  apply modifies_only_bind; [by apply modifies_only_unchanged|]. intros d.
  apply modifies_only_bind; [apply modifies_only_put|]. intros _.
  apply modifies_only_bind; [apply modifies_only_get|]. intros o'.
  apply modifies_only_put.
Qed.

Lemma keeps_allocated_init cs cube data dt :
  keeps_allocated (PointList.__init__ cs cube data dt).
Proof.
  intros h l Hl. rewrite init_run.
  destruct (PointList.make_dtype cs dt) as [fields|e]; [|done].
  destruct data as [batch|]; simpl; [|by rewrite lookup_app_l].
  pose proof (modifies_only_add_pointarray (length h) batch
                (h ++ [empty_pointlist cs cube dt fields]) l) as Hl'.
  destruct (PointList.add_pointarray _ _ _) as [[[]|e] h']; simpl in *;
    rewrite Hl' by lia; by rewrite lookup_app_l.
Qed.

Lemma keeps_allocated_copy self : keeps_allocated (PointList.copy self).
Proof.
  intros h l Hl. unfold PointList.copy, mbind, M_bind, PointList.get.
  destruct (h !! self) as [o|]; [|done]. by apply keeps_allocated_init.
Qed.

Lemma mask_loop_heap o coords_vals : ∀ deletemask h,
  (PointList.mask_loop o deletemask coords_vals h).2 = h.
Proof.
  induction coords_vals as [|tup rest IH]; intros deletemask h; simpl; [done|].
  unfold mbind, M_bind.
  assert (Hstep : (PointList.mask_step o deletemask tup h).2 = h).
  { unfold PointList.mask_step. unfold_M.
    destruct (_ || _); [|done]. destruct (bool_decide _); [|done].
    destruct tup.2 as [|val [|maxval [|]]]; try done;
      by destruct (PointList.column o tup.1). }
  destruct (PointList.mask_step o deletemask tup h) as [[m|e] h']; simpl in *; subst; [|done].
  apply IH.
Qed.

Lemma keeps_allocated_get_subpointlist self coords_vals :
  keeps_allocated (PointList.get_subpointlist self coords_vals).
Proof.
  intros h l Hl. unfold PointList.get_subpointlist, mbind, M_bind, PointList.get.
  destruct (h !! self) as [o|] eqn:Hs; [|done].
  pose proof (mask_loop_heap o coords_vals (replicate (length (PointList.data o)) false) h) as Hm.
  destruct (PointList.mask_loop _ _ _ _) as [[deletemask|e] h1]; simpl in Hm; subst h1; [|done].
  pose proof (keeps_allocated_copy self h l Hl) as Hc.
  destruct (PointList.copy self h) as [[new|e] h2] eqn:Hcopy; simpl in Hc; [|done].
  assert (new = length h) as ->.
  { unfold PointList.copy, mbind, M_bind, PointList.get in Hcopy. rewrite Hs in Hcopy.
    by apply init_returns_allocated in Hcopy as [-> _]. }
  pose proof (modifies_only_remove_points (length h) deletemask h2 l) as Hr.
  destruct (PointList.remove_points _ _ _) as [[[]|e] h3]; simpl in *;
    rewrite Hr by lia; done.
Qed.

End frame.

(** ** [get_subpointlist] *)

(** C4, at a failing input.  On a table without records [get_subpointlist]
    returns no table: the copy it starts from is built by a constructor that
    is handed the empty array of records as initial data, and
    [add_pointarray] raises [IndexError] on it. *)
Theorem get_subpointlist_empty_table :
  PointList.get_subpointlist 0 [("x", [1%Z])] [xy_pointlist []] =
    (Raise IndexError,
     [xy_pointlist [];
      empty_pointlist xy_coordinates sample_cube (Struct xy_dtype) xy_dtype]).
Proof. reflexivity. Qed.

(** C7, at a failing input.  [get_subpointlist] leaves every point list
    that existed before the call as it was, the source included, whether it
    returns or raises; but on a source without records it raises and
    returns no table at all. *)
Theorem get_subpointlist_source (h : PointList.heap) (self : loc) (o : PointList.t)
    (coords_vals : list (string * list Z)) :
  h !! self = Some o →
  (PointList.get_subpointlist self coords_vals h).2 !! self = Some o ∧
  (∀ l, l < length h → (PointList.get_subpointlist self coords_vals h).2 !! l = h !! l) ∧
  (PointList.data o = [] →
   ∃ e, (PointList.get_subpointlist self coords_vals h).1 = Raise e).
Proof.
  intros Hs. split; [|split].
  - rewrite keeps_allocated_get_subpointlist by eauto using lookup_lt_Some. done.
  - intros l Hl. by apply keeps_allocated_get_subpointlist.
  - intros Hempty. unfold PointList.get_subpointlist, mbind, M_bind, PointList.get.
    rewrite Hs.
    destruct (PointList.mask_loop _ _ _ _) as [[deletemask|e] h1] eqn:Hm; [|by eauto].
    pose proof (mask_loop_heap o coords_vals
                  (replicate (length (PointList.data o)) false) h) as Hh1.
    rewrite Hm in Hh1. simpl in Hh1. subst h1.
    unfold PointList.copy, mbind, M_bind, PointList.get. rewrite Hs, init_run, Hempty.
    destruct (PointList.make_dtype _ _) as [fields|e]; [|by eauto].
    erewrite add_pointarray_run by (by rewrite lookup_app_r, Nat.sub_diag by lia).
    by eauto.
Qed.

Lemma get_subpointlist_source_witness :
  (PointList.get_subpointlist 0 [] [xy_pointlist []]).2 !! 0 = Some (xy_pointlist []) ∧
  ∃ e, (PointList.get_subpointlist 0 [] [xy_pointlist []]).1 = Raise e.
Proof.
  destruct (get_subpointlist_source [xy_pointlist []] 0 (xy_pointlist []) [] eq_refl)
    as (Hsrc & _ & Hfail).
  split; [exact Hsrc | exact (Hfail eq_refl)].
Defined.

(** ** [get_subpointlist] on a table that holds records *)

Section filtering.
Implicit Types (h : PointList.heap) (o : PointList.t) (self : loc).

Lemma rows_typed_length o r :
  rows_typed o → r ∈ PointList.data o → length r = length (PointList.dtype o).
Proof.
  intros Ho Hr. pose proof (proj1 (Forall_forall _ _) Ho r Hr) as Hconv. simpl in Hconv.
  apply np_array_Ret in Hconv. by apply coerce_fields_length in Hconv as [? _].
Qed.

Lemma column_run o name k kind :
  field_index name (PointList.dtype o).*1 = Some k →
  PointList.dtype o !! k = Some (name, Scalar kind) →
  rows_typed o →
  PointList.column o name = Ret (field_num k <$> PointList.data o).
Proof.
  intros Hk Hty Ho. unfold PointList.column. rewrite Hk, Hty.
  assert (Hcol : mapM (λ r : row, match r !! k with Some (VNum z) => Some z | _ => None end)
                   (PointList.data o) = Some (field_num k <$> PointList.data o)).
  { apply mapM_Some, Forall2_fmap_r, Forall_Forall2_diag.
    eapply Forall_impl; [exact Ho|]. simpl. intros r Hr.
    apply np_array_Ret in Hr.
    destruct (coerce_fields_scalar _ _ _ _ _ _ Hr Hty) as (z & z' & Hz & _).
    unfold field_num. by rewrite Hz. }
  by rewrite Hcol.
Qed.

Lemma mask_loop_run o coords_vals :
  rows_typed o →
  Forall (accepted_tuple (PointList.dtype o)) coords_vals →
  ∀ (g : row → bool) h,
    PointList.mask_loop o (g <$> PointList.data o) coords_vals h =
      (Ret ((λ r, g r || negb (forallb (satisfies (PointList.dtype o).*1 r) coords_vals))
              <$> PointList.data o), h).
Proof.
  intros Ho. induction 1 as [|tup rest [Hlen (k & kind & Hk & Hty)] _ IH]; intros g h; simpl.
  - unfold mret, M_ret. do 2 f_equal. apply list_fmap_ext. intros _ r _. by rewrite orb_false_r.
  - unfold PointList.mask_step, PointList.mask_or. unfold_M.
    rewrite bool_decide_true by (apply field_index_is_Some; eauto).
    rewrite (column_run _ _ _ _ Hk Hty Ho).
    destruct tup as [name args]. simpl in *.
    destruct args as [|val [|maxval [|]]]; simpl in Hlen; try lia; simpl.
    + rewrite <-list_fmap_compose, zip_with_fmap_l, zip_with_fmap_r, zip_with_diag.
      rewrite IH. f_equal. f_equal. apply list_fmap_ext. intros _ r _. simpl.
      unfold satisfies. simpl. rewrite Hk.
      destruct (g r), (field_num k r =? val)%Z; simpl; done.
    + rewrite <-!list_fmap_compose, !zip_with_fmap_l, !zip_with_fmap_r, zip_with_diag.
      rewrite zip_with_fmap_l, zip_with_diag.
      rewrite IH. f_equal. f_equal. apply list_fmap_ext. intros _ r _. simpl.
      unfold satisfies. simpl. rewrite Hk.
      rewrite (Z.ltb_antisym val), (Z.leb_antisym _ maxval).
      destruct (g r), (val <=? field_num k r)%Z, (field_num k r <? maxval)%Z; simpl; done.
Qed.

Lemma unmarked_fmap {A : Type} (f : A → bool) (l : list A) :
  unmarked l ((λ x, negb (f x)) <$> l) = filter (λ x, f x = true) l.
Proof.
  unfold unmarked. induction l as [|x l IH]; [done|]. rewrite fmap_cons. cbn [zip_with].
  destruct (f x) eqn:Hx; cbn [negb].
  - rewrite filter_cons_True by done.
    rewrite (filter_cons_True (λ x, f x = true)) by done. rewrite fmap_cons. cbn [fst].
    by rewrite IH.
  - rewrite filter_cons_False by done.
    rewrite (filter_cons_False (λ x, f x = true)) by congruence. done.
Qed.

Lemma count_true_fmap {A : Type} (f : A → bool) (l : list A) :
  count_true ((λ x, negb (f x)) <$> l) + length (filter (λ x, f x = true) l) = length l.
Proof.
  unfold count_true. induction l as [|x l IH]; [done|]. rewrite fmap_cons.
  destruct (f x) eqn:Hx; simpl negb.
  - rewrite filter_cons_False by done. rewrite filter_cons_True by done. simpl. lia.
  - rewrite filter_cons_True by done. rewrite filter_cons_False by congruence. simpl. lia.
Qed.

Lemma accepted_typed (fields : fields_t) (d : list row) :
  Forall (λ r, np_array r fields = Ret r) d →
  accepted fields d = d ∧ rejection fields d = None.
Proof.
  induction 1 as [|r d Hr _ [IHa IHr]]; simpl; [done|].
  assert (length r = length fields) as Hlen.
  { apply np_array_Ret in Hr. by apply coerce_fields_length in Hr as [? _]. }
  rewrite (proj2 (Nat.eqb_eq _ _) Hlen), Hr, IHa. done.
Qed.

Lemma remove_points_in_range h self o mask :
  h !! self = Some o →
  length mask = length (PointList.data o) →
  PointList.remove_points self mask h =
    (Ret (), <[self := updated o (PointList.length o - Z.of_nat (count_true mask))
                         (unmarked (PointList.data o) mask)]> h).
Proof.
  intros Hs Hlen. rewrite (remove_points_run _ _ _ _ Hs). unfold np_delete.
  rewrite (proj2 (nonzero_in_range _ _))
    by (intros i Hi; rewrite <-Hlen; eauto using lookup_lt_Some).
  rewrite delete_from_nonzero, drop_0, Hlen, drop_all, app_nil_r.
  unfold nonzero. by rewrite length_nonzero_from.
Qed.

Lemma get_subpointlist_run h self o coords_vals :
  h !! self = Some o →
  PointList.data o ≠ [] →
  PointList.make_dtype (PointList.coordinates o) (Struct (PointList.dtype o))
    = Ret (PointList.dtype o) →
  rows_typed o →
  Forall (accepted_tuple (PointList.dtype o)) coords_vals →
  PointList.get_subpointlist self coords_vals h =
    (Ret (length h),
     h ++ [PointList.mk (PointList.coordinates o) (PointList.parentDataCube o)
             (Struct (PointList.dtype o))
             (Z.of_nat (length (filter (λ r, forallb (satisfies (PointList.dtype o).*1 r)
                                                coords_vals = true) (PointList.data o))))
             (PointList.dtype o)
             (filter (λ r, forallb (satisfies (PointList.dtype o).*1 r) coords_vals = true)
                     (PointList.data o))]).
Proof.
  intros Hs Hne Hmk Ho Hpreds.
  unfold PointList.get_subpointlist. unfold mbind at 1, M_bind at 1, PointList.get at 1.
  rewrite Hs.
  rewrite <-(const_fmap (λ _ : row, false) (PointList.data o) false) by done.
  unfold mbind at 1, M_bind at 1. rewrite (mask_loop_run _ _ Ho Hpreds).
  unfold mbind at 1, M_bind at 1.
  unfold PointList.copy. unfold mbind at 1, M_bind at 1, PointList.get at 1. rewrite Hs.
  rewrite init_run, Hmk.
  set (e := empty_pointlist _ _ _ _).
  assert (Hnew : (h ++ [e]) !! length h = Some e)
    by (by rewrite lookup_app_r, Nat.sub_diag by lia).
  rewrite (add_pointarray_run _ _ _ _ Hnew).
  destruct (PointList.data o) as [|first d] eqn:Hd; [done|]. rewrite <-Hd in *.
  assert (length first = length (PointList.dtype o)) as Hfirst
    by (apply rows_typed_length; [done | rewrite Hd; apply list_elem_of_here]).
  subst e. simpl PointList.dtype. rewrite (proj2 (Nat.eqb_eq _ _) Hfirst).
  rewrite (for_each_add_point_run _ _ _ _ Hnew). simpl PointList.dtype.
  destruct (accepted_typed _ _ Ho) as [-> ->].
  unfold mbind, M_bind.
  erewrite remove_points_in_range;
    [|apply list_lookup_insert_eq; rewrite length_app; simpl; lia
     |by rewrite length_fmap].
  simpl. rewrite list_insert_insert_eq.
  replace (length h) with (length h + 0) at 2 by lia.
  rewrite insert_app_r. simpl. do 3 f_equal.
  rewrite (unmarked_fmap (λ r, forallb (satisfies (PointList.dtype o).*1 r) coords_vals)).
  unfold updated, PointList.set_length, PointList.set_data. simpl.
  f_equal.
  pose proof (count_true_fmap (λ r, forallb (satisfies (PointList.dtype o).*1 r) coords_vals)
                (PointList.data o)).
  lia.
Qed.

Lemma integer_tuple_accepted (fields : fields_t) (tup : string * list Z) :
  integer_tuple fields tup → accepted_tuple fields tup.
Proof. intros (Hlen & _ & k & Hk & Hty). split; [done|]. by exists k, Int. Qed.

End filtering.

(** On a table that holds at least one record, whose coordinates were given
    as [(name, dtype)] tuples, [get_subpointlist] with tuples over integer
    fields returns a new point list with the coordinates, the parent and the
    dtype of the source, holding exactly the records of the source that
    satisfy every tuple, in their order, and a counter equal to their number;
    the store is otherwise as before. *)
Theorem get_subpointlist_rows (h : PointList.heap) (self : loc) (o : PointList.t)
    (coords_vals : list (string * list Z)) :
  h !! self = Some o →
  PointList.data o ≠ [] →
  PointList.make_dtype (PointList.coordinates o) (Struct (PointList.dtype o))
    = Ret (PointList.dtype o) →
  rows_typed o →
  Forall (integer_tuple (PointList.dtype o)) coords_vals →
  PointList.get_subpointlist self coords_vals h =
    (Ret (length h),
     h ++ [PointList.mk (PointList.coordinates o) (PointList.parentDataCube o)
             (Struct (PointList.dtype o))
             (Z.of_nat (length (filter (λ r, forallb (satisfies (PointList.dtype o).*1 r)
                                                coords_vals = true) (PointList.data o))))
             (PointList.dtype o)
             (filter (λ r, forallb (satisfies (PointList.dtype o).*1 r) coords_vals = true)
                     (PointList.data o))]).
Proof.
  intros Hs Hne Hmk Ho Hpreds. apply get_subpointlist_run; try done.
  eapply Forall_impl; [exact Hpreds|]. apply integer_tuple_accepted.
Qed.

(** The example of the specification: from [(1,2), (3,4), (1,5)] the tuple
    [("x", 1)] keeps [(1,2)] and [(1,5)]. *)
Example get_subpointlist_x_is_1 :
  PointList.get_subpointlist 0 [("x", [1%Z])] [xy_pointlist [pt 1 2; pt 3 4; pt 1 5]] =
    (Ret 1, [xy_pointlist [pt 1 2; pt 3 4; pt 1 5];
             PointList.mk xy_coordinates sample_cube (Struct xy_dtype) 2 xy_dtype
               [pt 1 2; pt 1 5]]).
Proof.
  apply (get_subpointlist_rows [xy_pointlist [pt 1 2; pt 3 4; pt 1 5]] 0
           (xy_pointlist [pt 1 2; pt 3 4; pt 1 5]) [("x", [1%Z])]).
  - reflexivity.
  - discriminate.
  - reflexivity.
  - repeat constructor.
  - repeat constructor; [unfold fits; lia|]. exists 0. split; reflexivity.
Defined.

(** A table whose coordinates were given as plain names is copied with its
    structured dtype standing in for the default scalar type, so the fields
    of the copy are themselves structured and its records are nested: the
    copy does not have the dtype of its source. *)
Example copy_of_named_coordinates :
  ∃ src h new h',
    PointList.__init__ [CStr "x"; CStr "y"] sample_cube (Some [pt 1 2]) (Scalar Float) []
      = (Ret src, h) ∧
    PointList.copy src h = (Ret new, h') ∧
    PointList.dtype <$> h' !! src = Some [("x", Scalar Float); ("y", Scalar Float)] ∧
    PointList.dtype <$> h' !! new =
      Some [("x", Struct [("x", Scalar Float); ("y", Scalar Float)]);
            ("y", Struct [("x", Scalar Float); ("y", Scalar Float)])] ∧
    PointList.data <$> h' !! new =
      Some [[VTuple [VNum 1; VNum 1]; VTuple [VNum 2; VNum 2]]].
Proof. by eexists _, _, _, _. Qed.

(** * Further properties of the methods *)

(** ** [add_point], [add_pointarray] and the constructor *)

Lemma accepted_all (fields : fields_t) (batch : list (list value)) (rows : list row) :
  Forall2 (λ point r, np_array point fields = Ret r) batch rows →
  accepted fields batch = rows ∧ rejection fields batch = None.
Proof.
  induction 1 as [|point r batch rows Hr _ [IHa IHr]]; simpl; [done|].
  assert (length point = length fields) as Hlen.
  { apply np_array_Ret in Hr. by apply coerce_fields_length in Hr as [? _]. }
  by rewrite (proj2 (Nat.eqb_eq _ _) Hlen), Hr, IHa.
Qed.

Lemma batch_fits (fields : fields_t) (batch : list (list value)) :
  Forall (point_fits fields) batch →
  Forall2 (λ point r, np_array point fields = Ret r) batch batch.
Proof.
  intros Hbatch. apply Forall_Forall2_diag.
  eapply Forall_impl; [exact Hbatch|]. apply np_array_fits.
Qed.

Lemma converted_unique (fields : fields_t) (batch : list (list value)) (rows rows' : list row) :
  Forall2 (λ point r, np_array point fields = Ret r) batch rows →
  Forall2 (λ point r, np_array point fields = Ret r) batch rows' →
  rows = rows'.
Proof.
  intros H. revert rows'. induction H as [|point r batch rows Hr _ IH]; intros rows' H'.
  - by apply Forall2_nil_inv_l in H'.
  - apply Forall2_cons_inv_l in H' as (r' & rows'' & Hr' & H' & ->).
    f_equal; [congruence | by apply IH].
Qed.

(** [add_point] checks the length of the point against the number of fields
    and nothing else of the table: a point of another length raises
    [AssertionError] and changes nothing; a point of the right length that
    does not convert to a record raises the exception of the conversion and
    changes nothing; the record of an accepted point becomes the last record,
    the counter goes up by one, and no other point list is written to.  A
    point of integers that fit their scalar fields is stored unchanged. *)
Theorem add_point_spec (h : PointList.heap) (self : loc) (o : PointList.t)
    (point : list value) :
  h !! self = Some o →
  (length point ≠ length (PointList.dtype o) →
     PointList.add_point self point h = (Raise AssertionError, h)) ∧
  (length point = length (PointList.dtype o) → ∀ e,
     np_array point (PointList.dtype o) = Raise e →
     PointList.add_point self point h = (Raise e, h)) ∧
  (length point = length (PointList.dtype o) → ∀ r,
     np_array point (PointList.dtype o) = Ret r →
     ∃ h', PointList.add_point self point h = (Ret (), h') ∧
           h' !! self = Some (updated o (PointList.length o + 1) (PointList.data o ++ [r])) ∧
           ∀ l, l ≠ self → h' !! l = h !! l) ∧
  (point_fits (PointList.dtype o) point →
     PointList.add_point self point h =
       (Ret (), <[self := updated o (PointList.length o + 1) (PointList.data o ++ [point])]> h)).
Proof.
  intros Hs. rewrite (add_point_run _ _ _ _ Hs). split; [|split; [|split]].
  - intros Hlen. apply Nat.eqb_neq in Hlen. by rewrite Hlen.
  - intros Hlen e He. by rewrite (proj2 (Nat.eqb_eq _ _) Hlen), He.
  - intros Hlen r Hr. rewrite (proj2 (Nat.eqb_eq _ _) Hlen), Hr.
    eexists. split; [done|]. split.
    + apply list_lookup_insert_eq. eauto using lookup_lt_Some.
    + intros l Hl. by apply list_lookup_insert_ne.
  - intros Hfits.
    by rewrite (proj2 (Nat.eqb_eq _ _) (point_fits_length _ _ Hfits)), np_array_fits.
Qed.

Lemma add_point_spec_witness :
  PointList.add_point 0 [VNum 1] [xy_pointlist [pt 7 8]] =
    (Raise AssertionError, [xy_pointlist [pt 7 8]]) ∧
  PointList.add_point 0 (pt (2 ^ 63) 0) [xy_pointlist [pt 7 8]] =
    (Raise OverflowError, [xy_pointlist [pt 7 8]]) ∧
  PointList.add_point 0 (pt 1 2) [xy_pointlist [pt 7 8]] =
    (Ret (), [xy_pointlist [pt 7 8; pt 1 2]]).
Proof.
  split; [|split].
  - apply (proj1 (add_point_spec [xy_pointlist [pt 7 8]] 0 (xy_pointlist [pt 7 8]) [VNum 1]
                    eq_refl)).
    simpl. lia.
  - apply (proj1 (proj2 (add_point_spec [xy_pointlist [pt 7 8]] 0 (xy_pointlist [pt 7 8])
                           (pt (2 ^ 63) 0) eq_refl))); reflexivity.
  - apply (proj2 (proj2 (proj2 (add_point_spec [xy_pointlist [pt 7 8]] 0
                                  (xy_pointlist [pt 7 8]) (pt 1 2) eq_refl)))).
    repeat constructor; eexists Int, _; (split; [reflexivity|]); (split; [reflexivity|]);
      unfold fits; lia.
Defined.

(** A float field stores the nearest [float64]: of the integers above
    [2^53] only every second one is a [float64], and a tie goes to the even
    significand. *)
Example add_point_rounds :
  PointList.add_point 0 [VNum (2 ^ 53 + 1); VNum (2 ^ 53 + 3)]
    [PointList.mk [CStr "x"; CStr "y"] sample_cube (Scalar Float) 0
       [("x", Scalar Float); ("y", Scalar Float)] []] =
    (Ret (),
     [PointList.mk [CStr "x"; CStr "y"] sample_cube (Scalar Float) 1
        [("x", Scalar Float); ("y", Scalar Float)] [[VNum (2 ^ 53); VNum (2 ^ 53 + 4)]]]).
Proof. by vm_compute. Qed.

(** A batch of points of one length can fail after its first point: the
    second point does not fit an integer field. *)
Example add_pointarray_overflow :
  PointList.add_pointarray 0 [pt 1 2; pt (2 ^ 63) 0] [xy_pointlist []] =
    (Raise OverflowError, [xy_pointlist [pt 1 2]]).
Proof. by vm_compute. Qed.

Lemma add_pointarray_batch (h : PointList.heap) (self : loc) (o : PointList.t)
    (batch : list (list value)) (rows : list row) :
  h !! self = Some o →
  batch ≠ [] →
  Forall2 (λ point r, np_array point (PointList.dtype o) = Ret r) batch rows →
  PointList.add_pointarray self batch h =
    (Ret (), <[self := updated o (PointList.length o + Z.of_nat (length batch))
                         (PointList.data o ++ rows)]> h).
Proof.
  intros Hs Hne Hbatch. rewrite (add_pointarray_run _ _ _ _ Hs).
  destruct batch as [|first batch]; [done|].
  assert (length first = length (PointList.dtype o)) as Hfirst.
  { apply Forall2_cons_inv_l in Hbatch as (r & rows' & Hr & _ & _).
    apply np_array_Ret in Hr. by apply coerce_fields_length in Hr as [? _]. }
  rewrite (proj2 (Nat.eqb_eq _ _) Hfirst), (for_each_add_point_run _ _ _ _ Hs).
  destruct (accepted_all _ _ _ Hbatch) as [-> ->].
  by rewrite (Forall2_length _ _ _ Hbatch).
Qed.

(** A batch that is not empty and all of whose points convert to records is
    appended whole: the table gains the records of the points, in the order
    of the batch, the counter goes up by the number of the points, and no
    other point list is written to.  Points of integers that fit their scalar
    fields are stored unchanged. *)
Theorem add_pointarray_appends (h : PointList.heap) (self : loc) (o : PointList.t)
    (batch : list (list value)) (rows : list row) :
  h !! self = Some o →
  batch ≠ [] →
  Forall2 (λ point r, np_array point (PointList.dtype o) = Ret r) batch rows →
  ∃ h',
    PointList.add_pointarray self batch h = (Ret (), h') ∧
    h' !! self = Some (updated o (PointList.length o + Z.of_nat (length batch))
                                 (PointList.data o ++ rows)) ∧
    (∀ l, l ≠ self → h' !! l = h !! l) ∧
    (Forall (point_fits (PointList.dtype o)) batch → rows = batch).
Proof.
  intros Hs Hne Hbatch. eexists. split; [by apply add_pointarray_batch|]. split; [|split].
  - apply list_lookup_insert_eq. eauto using lookup_lt_Some.
  - intros l Hl. by apply list_lookup_insert_ne.
  - intros Hfits. symmetry. eapply converted_unique; [by apply batch_fits | done].
Qed.

Lemma add_pointarray_appends_witness :
  ∃ h', PointList.add_pointarray 0 [pt 1 2; pt 3 4] [xy_pointlist [pt 7 8]] = (Ret (), h') ∧
        h' !! 0 = Some (xy_pointlist [pt 7 8; pt 1 2; pt 3 4]).
Proof.
  destruct (add_pointarray_appends [xy_pointlist [pt 7 8]] 0 (xy_pointlist [pt 7 8])
              [pt 1 2; pt 3 4] [pt 1 2; pt 3 4] eq_refl) as (h' & Hrun & Hself & _).
  - discriminate.
  - repeat constructor.
  - exists h'. split; [exact Hrun | exact Hself].
Defined.

(** A constructor given coordinates that define a dtype and a batch of
    initial data that is not empty and all of whose points convert to
    records returns a new point list that holds the records of the batch, in
    its order, with a counter equal to the number of its points; the point
    lists that existed before are as they were.  Points of integers that fit
    their scalar fields are stored unchanged. *)
Theorem init_with_data (cs : list coordinate) (cube : DataCube) (dt : np_dtype)
    (fields : fields_t) (batch : list (list value)) (rows : list row) (h : PointList.heap) :
  PointList.make_dtype cs dt = Ret fields →
  batch ≠ [] →
  Forall2 (λ point r, np_array point fields = Ret r) batch rows →
  PointList.__init__ cs cube (Some batch) dt h =
    (Ret (length h),
     h ++ [PointList.mk cs cube dt (Z.of_nat (length batch)) fields rows]) ∧
  (Forall (point_fits fields) batch → rows = batch).
Proof.
  intros Hdt Hne Hbatch. split.
  - rewrite init_run, Hdt.
    rewrite (add_pointarray_batch _ _ (empty_pointlist cs cube dt fields) _ rows);
      [|by rewrite lookup_app_r, Nat.sub_diag by lia|done..].
    rewrite insert_app_r_alt, Nat.sub_diag by lia. simpl.
    unfold updated, empty_pointlist, PointList.set_length, PointList.set_data. simpl.
    done.
  - intros Hfits. symmetry. eapply converted_unique; [by apply batch_fits | done].
Qed.

Lemma init_with_data_witness :
  PointList.__init__ xy_coordinates sample_cube (Some [pt 1 2; pt 3 4; pt 1 5]) (Scalar Float) [] =
    (Ret 0, [xy_pointlist [pt 1 2; pt 3 4; pt 1 5]]).
Proof.
  apply (init_with_data xy_coordinates sample_cube (Scalar Float) xy_dtype
           [pt 1 2; pt 3 4; pt 1 5] [pt 1 2; pt 3 4; pt 1 5] [] eq_refl).
  - discriminate.
  - repeat constructor.
Defined.



(** ** [sort] *)

(** [sort] asserts its arguments before it touches the records: a
    coordinate that is no field of the dtype, or an order other than
    ['ascending'] and ['descending'], raises [AssertionError] and the table
    keeps its records in the order they had. *)
Theorem sort_rejects (h : PointList.heap) (self : loc) (o : PointList.t)
    (coordinate order : string) :
  h !! self = Some o →
  (coordinate ∉ (PointList.dtype o).*1 →
     PointList.sort self coordinate order h = (Raise AssertionError, h)) ∧
  (order ≠ "ascending" → order ≠ "descending" →
     PointList.sort self coordinate order h = (Raise AssertionError, h)).
Proof.
  intros Hs. rewrite (sort_run _ _ _ _ _ Hs). split.
  - intros Hin. by rewrite (proj2 (field_index_None _ _) Hin).
  - intros Ha Hd. destruct (field_index _ _); [|done].
    repeat case_bool_decide; done.
Qed.

Lemma sort_rejects_witness :
  PointList.sort 0 "z" "ascending" [xy_pointlist [pt 3 4; pt 1 2]] =
    (Raise AssertionError, [xy_pointlist [pt 3 4; pt 1 2]]) ∧
  PointList.sort 0 "x" "up" [xy_pointlist [pt 3 4; pt 1 2]] =
    (Raise AssertionError, [xy_pointlist [pt 3 4; pt 1 2]]).
Proof.
  split.
  - apply (proj1 (sort_rejects [xy_pointlist [pt 3 4; pt 1 2]] 0
                    (xy_pointlist [pt 3 4; pt 1 2]) "z" "ascending" eq_refl)).
    apply (bool_decide_unpack _). reflexivity.
  - apply (proj2 (sort_rejects [xy_pointlist [pt 3 4; pt 1 2]] 0
                    (xy_pointlist [pt 3 4; pt 1 2]) "x" "up" eq_refl)); discriminate.
Defined.

Section sort_order.
Implicit Types (a b c : value) (l : list row) (k : nat).

Lemma value_compare_eq a b : value_compare a b = Eq → a = b.
Proof.
  revert b. induction a as [x|xs IH] using value_items_ind; intros [y|ys]; simpl; try done.
  - intros ->%Z.compare_eq. done.
  - intros Hlex. f_equal. revert ys Hlex.
    induction IH as [|x xs IHx _ IHxs]; intros [|y ys]; simpl; try done.
    destruct (value_compare x y) eqn:Hxy; try done.
    intros Hlex. apply IHx in Hxy as ->. f_equal. by apply IHxs.
Qed.

Lemma value_compare_refl a : value_compare a a = Eq.
Proof.
  pose proof (value_compare_antisym a a) as H. by destruct (value_compare a a).
Qed.

Lemma value_compare_lt_trans a : ∀ b c,
  value_compare a b = Lt → value_compare b c = Lt → value_compare a c = Lt.
Proof.
  induction a as [x|xs IH] using value_items_ind; intros [y|ys] [z|zs]; simpl; try done.
  - rewrite !Z.compare_lt_iff. lia.
  - revert ys zs. induction IH as [|x xs IHx _ IHxs]; intros [|y ys] [|z zs]; simpl; try done.
    destruct (value_compare x y) eqn:Hxy, (value_compare y z) eqn:Hyz; try done.
    + apply value_compare_eq in Hxy as ->. apply value_compare_eq in Hyz as ->.
      rewrite value_compare_refl. apply IHxs.
    + apply value_compare_eq in Hxy as ->. by rewrite Hyz.
    + apply value_compare_eq in Hyz as <-. by rewrite Hxy.
    + by rewrite (IHx _ _ Hxy Hyz).
Qed.

Lemma sort_key_length k (r : row) : length (sort_key k r) = length r.
Proof.
  unfold sort_key. destruct (r !! k) as [v|] eqn:Hk; [|done].
  apply lookup_lt_Some in Hk. simpl. rewrite length_app, length_take, length_drop. lia.
Qed.

Lemma sort_key_inj k (r r' : row) : sort_key k r = sort_key k r' → r = r'.
Proof.
  intros Hkey. pose proof (f_equal length Hkey) as Hlen. rewrite !sort_key_length in Hlen.
  unfold sort_key in Hkey.
  destruct (r !! k) as [v|] eqn:Hk, (r' !! k) as [v'|] eqn:Hk'.
  - injection Hkey as -> Hrest.
    apply app_inj_1 in Hrest as [Ht Hd];
      [|rewrite !length_take_le by (apply Nat.lt_le_incl; eauto using lookup_lt_Some); done].
    by rewrite <-(take_drop_middle _ _ _ Hk), <-(take_drop_middle _ _ _ Hk'), Ht, Hd.
  - apply lookup_lt_Some in Hk. apply lookup_ge_None_1 in Hk'. lia.
  - apply lookup_lt_Some in Hk'. apply lookup_ge_None_1 in Hk. lia.
  - done.
Qed.

#[local] Instance key_leb_trans k : Transitive (λ r r' : row, key_leb k r r' = true).
Proof.
  intros r1 r2 r3. unfold key_leb, row_compare.
  destruct (value_compare (VTuple (sort_key k r1)) (VTuple (sort_key k r2))) eqn:H12; try done;
    destruct (value_compare (VTuple (sort_key k r2)) (VTuple (sort_key k r3))) eqn:H23;
    try done; intros _ _.
  - apply value_compare_eq in H12. by rewrite H12, H23.
  - apply value_compare_eq in H12. by rewrite H12, H23.
  - apply value_compare_eq in H23. by rewrite <-H23, H12.
  - by rewrite (value_compare_lt_trans _ _ _ H12 H23).
Qed.

#[local] Instance key_leb_antisymm k : AntiSymm (=) (λ r r' : row, key_leb k r r' = true).
Proof.
  intros r1 r2. unfold key_leb, row_compare.
  rewrite (value_compare_antisym (VTuple (sort_key k r1)) (VTuple (sort_key k r2))).
  destruct (value_compare (VTuple (sort_key k r1)) (VTuple (sort_key k r2))) eqn:H12;
    simpl; try done.
  intros _ _. apply value_compare_eq in H12. injection H12 as H12. by apply sort_key_inj in H12.
Qed.

(** The sorted sequence depends on the records only, not on their order. *)
Lemma np_sort_permutation k l l' : l ≡ₚ l' → np_sort k l = np_sort k l'.
Proof.
  intros Hl. apply (Sorted_unique (λ r r' : row, key_leb k r r' = true)).
  - apply np_sort_ordered.
  - apply np_sort_ordered.
  - by rewrite !np_sort_perm.
Qed.

End sort_order.

Lemma key_leb_field (k : nat) (r r' : row) (x y : Z) :
  r !! k = Some (VNum x) → r' !! k = Some (VNum y) → key_leb k r r' = true → (x ≤ y)%Z.
Proof.
  intros Hr Hr'. unfold key_leb, row_compare, sort_key. rewrite Hr, Hr'. simpl.
  destruct (Z.compare_spec x y); [lia | lia | done].
Qed.

Lemma StronglySorted_lookup {A : Type} (R : relation A) (l : list A) :
  StronglySorted R l →
  ∀ i j x y, i < j → l !! i = Some x → l !! j = Some y → R x y.
Proof.
  induction 1 as [|a l _ IH Hall]; intros i j x y Hij Hi Hj; [done|].
  destruct j as [|j]; [lia|]. simpl in Hj. destruct i as [|i]; simpl in Hi.
  - injection Hi as ->. exact (proj1 (Forall_forall _ _) Hall y (list_elem_of_lookup_2 _ _ _ Hj)).
  - apply (IH i j); [lia | done | done].
Qed.

(** After an ascending sort on a scalar field the numbers in that field
    never decrease along the records. *)
Lemma np_sort_field_order (k : nat) (d : list row) :
  Forall (λ r : row, ∃ z, r !! k = Some (VNum z)) d →
  ∀ i j ri rj, i ≤ j → np_sort k d !! i = Some ri → np_sort k d !! j = Some rj →
  (field_num k ri ≤ field_num k rj)%Z.
Proof.
  intros Hd.
  assert (Hnum : Forall (λ r : row, ∃ z, r !! k = Some (VNum z)) (np_sort k d))
    by (by rewrite np_sort_perm).
  assert (Hsorted : StronglySorted (λ r r' : row, (field_num k r ≤ field_num k r')%Z)
                      (np_sort k d)).
  { apply Sorted_StronglySorted; [intros ???; lia|].
    pose proof (np_sort_ordered k d) as Hord. unfold ordered in Hord.
    induction Hord as [|r l Hl IH Hhd]; [constructor|].
    apply Forall_cons in Hnum as [[x Hx] Hnum]. constructor; [by apply IH|].
    destruct Hhd as [|r' l Hrr']; constructor.
    apply Forall_cons in Hnum as [[y Hy] _].
    unfold field_num. rewrite Hx, Hy. by eapply key_leb_field. }
  intros i j ri rj Hij Hi Hj. destruct (decide (i = j)) as [->|Hne].
  - rewrite Hi in Hj. injection Hj as ->. lia.
  - eapply (StronglySorted_lookup _ _ Hsorted i j); [lia | done | done].
Qed.

(** On a table whose records are typed, an ascending sort on a scalar field
    rearranges the records so that the numbers in that field never decrease,
    a descending sort so that they never increase; the records are the same
    ones and the counter is not touched. *)
Theorem sort_orders_by_field (h : PointList.heap) (self : loc) (o : PointList.t)
    (coordinate : string) (k : nat) (kind : scalar_kind) :
  h !! self = Some o →
  rows_typed o →
  field_index coordinate (PointList.dtype o).*1 = Some k →
  PointList.dtype o !! k = Some (coordinate, Scalar kind) →
  ∃ d : list row,
    d ≡ₚ PointList.data o ∧
    PointList.sort self coordinate "ascending" h =
      (Ret (), <[self := PointList.set_data o d]> h) ∧
    PointList.sort self coordinate "descending" h =
      (Ret (), <[self := PointList.set_data o (reverse d)]> h) ∧
    PointList.length (PointList.set_data o d) = PointList.length o ∧
    (∀ i j ri rj, i ≤ j → d !! i = Some ri → d !! j = Some rj →
       (field_num k ri ≤ field_num k rj)%Z) ∧
    (∀ i j ri rj, i ≤ j → reverse d !! i = Some ri → reverse d !! j = Some rj →
       (field_num k rj ≤ field_num k ri)%Z).
Proof.
  intros Hs Ho Hk Hty. exists (np_sort k (PointList.data o)).
  assert (Hnum : Forall (λ r : row, ∃ z, r !! k = Some (VNum z)) (PointList.data o)).
  { eapply Forall_impl; [exact Ho|]. simpl. intros r Hr. apply np_array_Ret in Hr.
    destruct (coerce_fields_scalar _ _ _ _ _ _ Hr Hty) as (z & z' & Hz & _). eauto. }
  split; [apply np_sort_perm|]. rewrite !(sort_run _ _ _ _ _ Hs), Hk.
  split; [done|]. split; [done|]. split; [done|]. split.
  - by apply np_sort_field_order.
  - intros i j ri rj Hij Hi Hj.
    pose proof (lookup_lt_Some _ _ _ Hi) as Hli. pose proof (lookup_lt_Some _ _ _ Hj) as Hlj.
    rewrite length_reverse in Hli, Hlj.
    rewrite reverse_lookup in Hi, Hj by done.
    eapply (np_sort_field_order k _ Hnum); [|exact Hj|exact Hi]. lia.
Qed.

Lemma sort_orders_by_field_witness :
  ∃ d : list row,
    PointList.sort 0 "y" "ascending" [xy_pointlist [pt 1 5; pt 3 4; pt 1 2]] =
      (Ret (), <[0 := PointList.set_data (xy_pointlist [pt 1 5; pt 3 4; pt 1 2]) d]>
                 [xy_pointlist [pt 1 5; pt 3 4; pt 1 2]]) ∧
    ∀ i j ri rj, i ≤ j → d !! i = Some ri → d !! j = Some rj →
      (field_num 1 ri ≤ field_num 1 rj)%Z.
Proof.
  destruct (sort_orders_by_field [xy_pointlist [pt 1 5; pt 3 4; pt 1 2]] 0
              (xy_pointlist [pt 1 5; pt 3 4; pt 1 2]) "y" 1 Int eq_refl)
    as (d & _ & Hasc & _ & _ & Hord & _).
  - repeat constructor.
  - reflexivity.
  - reflexivity.
  - exists d. split; [exact Hasc | exact Hord].
Defined.

(** The result of a sort does not depend on the order an earlier sort left
    the records in: sorting by [g] and then by [f] leaves the store as
    sorting by [f] alone does. *)
Theorem sort_after_sort (h : PointList.heap) (self : loc) (o : PointList.t)
    (f g order order' : string) :
  h !! self = Some o →
  f ∈ (PointList.dtype o).*1 →
  g ∈ (PointList.dtype o).*1 →
  order = "ascending" ∨ order = "descending" →
  order' = "ascending" ∨ order' = "descending" →
  (PointList.sort self g order';; PointList.sort self f order) h =
    PointList.sort self f order h.
Proof.
  intros Hs [kf Hf]%field_index_is_Some [kg Hg]%field_index_is_Some Horder Horder'.
  unfold mbind, M_bind. rewrite !(sort_run _ _ _ _ _ Hs), Hf, Hg.
  assert (Hstep : ∀ d, d ≡ₚ PointList.data o →
    PointList.sort self f order (<[self := PointList.set_data o d]> h) =
      if bool_decide (order = "ascending") then
        (Ret (), <[self := PointList.set_data o (np_sort kf (PointList.data o))]> h)
      else
        (Ret (), <[self := PointList.set_data o (reverse (np_sort kf (PointList.data o)))]> h)).
  { intros d Hd.
    erewrite sort_run by (apply list_lookup_insert_eq; eauto using lookup_lt_Some).
    simpl. rewrite Hf, (np_sort_permutation kf d (PointList.data o) Hd).
    rewrite !list_insert_insert_eq.
    destruct Horder as [-> | ->]; done. }
  destruct Horder' as [-> | ->]; simpl.
  - rewrite Hstep by apply np_sort_perm. destruct Horder as [-> | ->]; done.
  - rewrite Hstep by (by rewrite reverse_Permutation, np_sort_perm).
    destruct Horder as [-> | ->]; done.
Qed.

Lemma sort_after_sort_witness :
  (PointList.sort 0 "x" "descending";; PointList.sort 0 "y" "ascending")
      [xy_pointlist [pt 1 5; pt 3 4; pt 1 2]] =
    (Ret (), [xy_pointlist [pt 1 2; pt 3 4; pt 1 5]]).
Proof.
  rewrite (sort_after_sort [xy_pointlist [pt 1 5; pt 3 4; pt 1 2]] 0
             (xy_pointlist [pt 1 5; pt 3 4; pt 1 2]) "y" "x" "ascending" "descending" eq_refl).
  - reflexivity.
  - apply (bool_decide_unpack _). reflexivity.
  - apply (bool_decide_unpack _). reflexivity.
  - by left.
  - by right.
Defined.

(** ** [remove_points] *)

Lemma delete_from_sublist {A : Type} (arr : list A) (idxs : list nat) : ∀ k,
  delete_from k arr idxs `sublist_of` arr.
Proof.
  induction arr as [|x arr IH]; intros k; simpl; [constructor|].
  case_bool_decide; [apply sublist_cons, IH | apply sublist_skip, IH].
Qed.

(** [remove_points] has two outcomes only.  Either it returns, and then the
    records left are records of the table in the order they had, none new
    and none moved, their number and the number of true entries of the mask
    add up to the number of records before, and no other point list is
    written to; or it raises [IndexError] and nothing has changed. *)
Theorem remove_points_outcomes (h : PointList.heap) (self : loc) (o : PointList.t)
    (mask : list bool) :
  h !! self = Some o →
  (∃ d : list row,
     PointList.remove_points self mask h =
       (Ret (), <[self := updated o (PointList.length o - Z.of_nat (count_true mask)) d]> h) ∧
     d `sublist_of` PointList.data o ∧
     length d + count_true mask = length (PointList.data o)) ∨
  PointList.remove_points self mask h = (Raise IndexError, h).
Proof.
  intros Hs. rewrite (remove_points_run _ _ _ _ Hs). unfold np_delete.
  destruct (forallb _ _) eqn:Hall; [left | by right].
  exists (delete_from 0 (PointList.data o) (nonzero mask)). split; [|split].
  - unfold nonzero. by rewrite length_nonzero_from.
  - apply delete_from_sublist.
  - rewrite delete_from_nonzero, drop_0.
    apply length_unmarked, nonzero_in_range, Hall.
Qed.

Lemma remove_points_outcomes_witness :
  (∃ d : list row,
     PointList.remove_points 0 [false; true] [xy_pointlist [pt 1 2; pt 3 4; pt 1 5]] =
       (Ret (), <[0 := updated (xy_pointlist [pt 1 2; pt 3 4; pt 1 5])
                         (3 - Z.of_nat (count_true [false; true])) d]>
                  [xy_pointlist [pt 1 2; pt 3 4; pt 1 5]]) ∧
     d `sublist_of` [pt 1 2; pt 3 4; pt 1 5]) ∨
  PointList.remove_points 0 [false; true] [xy_pointlist [pt 1 2; pt 3 4; pt 1 5]] =
    (Raise IndexError, [xy_pointlist [pt 1 2; pt 3 4; pt 1 5]]).
Proof.
  destruct (remove_points_outcomes [xy_pointlist [pt 1 2; pt 3 4; pt 1 5]] 0
              (xy_pointlist [pt 1 2; pt 3 4; pt 1 5]) [false; true] eq_refl)
    as [(d & Hrun & Hsub & _) | Hfail].
  - left. exists d. split; [exact Hrun | exact Hsub].
  - right. exact Hfail.
Defined.

(** ** [copy] *)

Section copying.
Implicit Types (h : PointList.heap) (o : PointList.t) (self : loc).

Lemma copy_run h self o :
  h !! self = Some o →
  PointList.copy self h =
    PointList.__init__ (PointList.coordinates o) (PointList.parentDataCube o)
      (Some (PointList.data o)) (Struct (PointList.dtype o)) h.
Proof.
  intros Hs. unfold PointList.copy, mbind, M_bind, PointList.get. by rewrite Hs.
Qed.

Lemma copy_rows h self o :
  h !! self = Some o →
  PointList.data o ≠ [] →
  PointList.make_dtype (PointList.coordinates o) (Struct (PointList.dtype o))
    = Ret (PointList.dtype o) →
  rows_typed o →
  PointList.copy self h =
    (Ret (length h),
     h ++ [PointList.mk (PointList.coordinates o) (PointList.parentDataCube o)
             (Struct (PointList.dtype o)) (Z.of_nat (length (PointList.data o)))
             (PointList.dtype o) (PointList.data o)]).
Proof.
  intros Hs Hne Hmk Ho. rewrite (copy_run _ _ _ Hs), init_run, Hmk.
  set (e := empty_pointlist _ _ _ _).
  assert (Hnew : (h ++ [e]) !! length h = Some e)
    by (by rewrite lookup_app_r, Nat.sub_diag by lia).
  rewrite (add_pointarray_run _ _ _ _ Hnew).
  destruct (PointList.data o) as [|first d] eqn:Hd; [done|]. rewrite <-Hd in *.
  assert (length first = length (PointList.dtype o)) as Hfirst
    by (apply rows_typed_length; [done | rewrite Hd; apply list_elem_of_here]).
  subst e. simpl PointList.dtype. rewrite (proj2 (Nat.eqb_eq _ _) Hfirst).
  rewrite (for_each_add_point_run _ _ _ _ Hnew). simpl PointList.dtype.
  destruct (accepted_typed _ _ Ho) as [-> ->].
  by rewrite insert_app_r_alt, Nat.sub_diag by lia.
Qed.

End copying.

(** On a table that holds at least one record, whose coordinates were
    given as [(name, dtype)] tuples, [copy] returns a new point list with the
    coordinates, the parent, the dtype and the records of the source, and a
    counter equal to the number of records; the source and every other point
    list stay as they were, and a later change of the copy (here: removing
    records or appending a point) is not seen in the source. *)
Theorem copy_spec (h : PointList.heap) (self : loc) (o : PointList.t) :
  h !! self = Some o →
  PointList.data o ≠ [] →
  PointList.make_dtype (PointList.coordinates o) (Struct (PointList.dtype o))
    = Ret (PointList.dtype o) →
  rows_typed o →
  ∃ new h',
    PointList.copy self h = (Ret new, h') ∧
    new ≠ self ∧
    h' !! new = Some (PointList.mk (PointList.coordinates o) (PointList.parentDataCube o)
                        (Struct (PointList.dtype o)) (Z.of_nat (length (PointList.data o)))
                        (PointList.dtype o) (PointList.data o)) ∧
    (∀ l, l < length h → h' !! l = h !! l) ∧
    (∀ mask, (PointList.remove_points new mask h').2 !! self = Some o) ∧
    (∀ point, (PointList.add_point new point h').2 !! self = Some o).
Proof.
  intros Hs Hne Hmk Ho. pose proof (lookup_lt_Some _ _ _ Hs) as Hlt.
  eexists _, _. split; [by apply copy_rows|].
  split; [lia|]. split; [by rewrite lookup_app_r, Nat.sub_diag by lia|].
  split; [intros l Hl; by rewrite lookup_app_l|].
  split.
  - intros mask. rewrite modifies_only_remove_points by lia. by rewrite lookup_app_l.
  - intros point. rewrite modifies_only_add_point by lia. by rewrite lookup_app_l.
Qed.

Lemma copy_spec_witness :
  ∃ new h',
    PointList.copy 0 [xy_pointlist [pt 1 2; pt 3 4]] = (Ret new, h') ∧
    new ≠ 0 ∧
    PointList.data <$> h' !! new = Some [pt 1 2; pt 3 4] ∧
    (PointList.remove_points new [true; true] h').2 !! 0 = Some (xy_pointlist [pt 1 2; pt 3 4]).
Proof.
  destruct (copy_spec [xy_pointlist [pt 1 2; pt 3 4]] 0 (xy_pointlist [pt 1 2; pt 3 4]) eq_refl)
    as (new & h' & Hrun & Hnew & Hcopy & _ & Hremove & _).
  - discriminate.
  - reflexivity.
  - repeat constructor.
  - exists new, h'. split; [exact Hrun|]. split; [exact Hnew|]. split.
    + rewrite Hcopy. reflexivity.
    + apply Hremove.
Defined.

(** [copy] of a table without records never returns: the constructor is
    handed the empty array as initial data and fails on it, with
    [IndexError] when the coordinates rebuild the dtype.  No point list that
    existed before is changed. *)
Theorem copy_empty_fails (h : PointList.heap) (self : loc) (o : PointList.t) :
  h !! self = Some o →
  PointList.data o = [] →
  (∃ e h', PointList.copy self h = (Raise e, h') ∧ ∀ l, l < length h → h' !! l = h !! l) ∧
  (∀ fields,
     PointList.make_dtype (PointList.coordinates o) (Struct (PointList.dtype o)) = Ret fields →
     ∃ h', PointList.copy self h = (Raise IndexError, h')).
Proof.
  intros Hs Hempty.
  assert (Hnew : ∀ fields,
            PointList.add_pointarray (length h) []
              (h ++ [empty_pointlist (PointList.coordinates o) (PointList.parentDataCube o)
                       (Struct (PointList.dtype o)) fields]) =
            (Raise IndexError,
             h ++ [empty_pointlist (PointList.coordinates o) (PointList.parentDataCube o)
                     (Struct (PointList.dtype o)) fields])).
  { intros. erewrite add_pointarray_run; [done|].
    by rewrite lookup_app_r, Nat.sub_diag by lia. }
  rewrite (copy_run _ _ _ Hs), init_run, Hempty. split.
  - destruct (PointList.make_dtype _ _) as [fields|e]; [|by eauto].
    rewrite Hnew. eexists _, _. split; [done|]. intros l Hl. by rewrite lookup_app_l.
  - intros fields ->. rewrite Hnew. by eauto.
Qed.

Lemma copy_empty_fails_witness :
  ∃ h', PointList.copy 0 [xy_pointlist []] = (Raise IndexError, h').
Proof.
  exact (proj2 (copy_empty_fails [xy_pointlist []] 0 (xy_pointlist []) eq_refl eq_refl)
           xy_dtype eq_refl).
Defined.

Lemma dtype_size_field (fs : fields_t) (n : string) (t : np_dtype) :
  (n, t) ∈ fs → dtype_size t < dtype_size (Struct fs).
Proof.
  simpl. induction fs as [|[m u] fs IH]; [by intros ?%elem_of_nil|].
  intros [[= <- <-]|Hin]%elem_of_cons; [lia|]. specialize (IH Hin). lia.
Qed.

(** No dtype has a field whose type is that dtype itself. *)
Lemma dtype_not_own_field (fs : fields_t) (names : list string) :
  names ≠ [] → (λ n, (n, Struct fs)) <$> names ≠ fs.
Proof.
  intros Hne Heq. destruct names as [|n names]; [done|].
  assert ((n, Struct fs) ∈ fs) as Hin by (rewrite <-Heq at 2; apply list_elem_of_here).
  apply dtype_size_field in Hin. lia.
Qed.

(** A table whose coordinates were given as plain names is copied with its
    own structured dtype standing in for the default type of the fields:
    whenever such a [copy] returns, every field of the copy has the whole
    dtype of the source as its type, the dtype of the copy differs from the
    dtype of the source, and [add_pointlist] between the two, in either
    direction, fails with [AssertionError]. *)
Theorem copy_named_coordinates (h h' : PointList.heap) (self new : loc) (o : PointList.t)
    (names : list string) :
  h !! self = Some o →
  PointList.coordinates o = CStr <$> names →
  PointList.copy self h = (Ret new, h') →
  ∃ c, h' !! new = Some c ∧
       h' !! self = Some o ∧
       PointList.dtype c = (λ n, (n, Struct (PointList.dtype o))) <$> names ∧
       PointList.dtype c ≠ PointList.dtype o ∧
       PointList.add_pointlist self new h' = (Raise AssertionError, h') ∧
       PointList.add_pointlist new self h' = (Raise AssertionError, h').
Proof.
  intros Hs Hcs Hcopy. pose proof (lookup_lt_Some _ _ _ Hs) as Hlt.
  assert (Hself : h' !! self = Some o).
  { pose proof (keeps_allocated_copy self h self Hlt) as Hk. by rewrite Hcopy, Hs in Hk. }
  rewrite (copy_run _ _ _ Hs), Hcs in Hcopy.
  destruct (init_returns_allocated _ _ _ _ _ _ _ Hcopy) as [-> _].
  rewrite init_run in Hcopy.
  destruct names as [|n names]; [done|].
  destruct (PointList.make_dtype _ _) as [fields|e] eqn:Hmk; [|done].
  assert (fields = (λ m, (m, Struct (PointList.dtype o))) <$> n :: names) as ->.
  { rewrite fmap_cons in Hmk. unfold PointList.make_dtype in Hmk.
    rewrite <-fmap_cons in Hmk.
    assert (PointList.coordinate_names (CStr <$> n :: names) = Some (n :: names)) as Hn
      by (by apply mapM_fmap_Some).
    rewrite Hn in Hmk. unfold PointList.np_dtype_of in Hmk.
    case_bool_decide; by simplify_eq. }
  set (e := empty_pointlist _ _ _ _) in Hcopy.
  assert (Hnew : (h ++ [e]) !! length h = Some e)
    by (by rewrite lookup_app_r, Nat.sub_diag by lia).
  assert (Hc : ∃ c, h' !! length h = Some c ∧ PointList.dtype c = PointList.dtype e).
  { rewrite (add_pointarray_run _ _ _ _ Hnew) in Hcopy.
    destruct (PointList.data o) as [|first d]; [done|].
    destruct (_ =? _); [|done].
    rewrite (for_each_add_point_run _ _ _ _ Hnew) in Hcopy.
    destruct (rejection _ _); [done|]. injection Hcopy as <-.
    eexists. split; [apply list_lookup_insert_eq; rewrite length_app; simpl; lia|done]. }
  destruct Hc as (c & Hc & Hdt). exists c. split; [done|]. split; [done|].
  subst e. change (PointList.dtype c =
                     (λ m, (m, Struct (PointList.dtype o))) <$> n :: names) in Hdt.
  split; [done|].
  assert (PointList.dtype c ≠ PointList.dtype o) as Hne
    by (rewrite Hdt; by apply dtype_not_own_field).
  split; [done|]. split.
  - rewrite (add_pointlist_run _ _ _ _ _ Hself Hc).
    destruct (dtype_eqb _ _) eqn:Heq; [|done].
    apply dtype_eqb_eq in Heq. by simplify_eq.
  - rewrite (add_pointlist_run _ _ _ _ _ Hc Hself).
    destruct (dtype_eqb _ _) eqn:Heq; [|done].
    apply dtype_eqb_eq in Heq. by simplify_eq.
Qed.

Lemma copy_named_coordinates_witness :
  ∃ c, (PointList.copy 0
          [PointList.mk [CStr "x"; CStr "y"] sample_cube (Scalar Float) 1
             [("x", Scalar Float); ("y", Scalar Float)] [pt 1 2]]).2 !! 1 = Some c ∧
       PointList.dtype c =
         [("x", Struct [("x", Scalar Float); ("y", Scalar Float)]);
          ("y", Struct [("x", Scalar Float); ("y", Scalar Float)])] ∧
       PointList.add_pointlist 0 1
         (PointList.copy 0
            [PointList.mk [CStr "x"; CStr "y"] sample_cube (Scalar Float) 1
               [("x", Scalar Float); ("y", Scalar Float)] [pt 1 2]]).2 =
         (Raise AssertionError,
          (PointList.copy 0
             [PointList.mk [CStr "x"; CStr "y"] sample_cube (Scalar Float) 1
                [("x", Scalar Float); ("y", Scalar Float)] [pt 1 2]]).2).
Proof.
  destruct (copy_named_coordinates
              [PointList.mk [CStr "x"; CStr "y"] sample_cube (Scalar Float) 1
                 [("x", Scalar Float); ("y", Scalar Float)] [pt 1 2]]
              (PointList.copy 0
                 [PointList.mk [CStr "x"; CStr "y"] sample_cube (Scalar Float) 1
                    [("x", Scalar Float); ("y", Scalar Float)] [pt 1 2]]).2
              0 1
              (PointList.mk [CStr "x"; CStr "y"] sample_cube (Scalar Float) 1
                 [("x", Scalar Float); ("y", Scalar Float)] [pt 1 2])
              ["x"; "y"] eq_refl eq_refl eq_refl)
    as (c & Hc & _ & Hdt & _ & Hmerge & _).
  exists c. split; [exact Hc|]. split; [exact Hdt | exact Hmerge].
Defined.

(** ** [get_subpointlist] *)

Section filter_errors.
Implicit Types (h : PointList.heap) (o : PointList.t) (self : loc).

Lemma mask_step_run o (g : row → bool) (tup : string * list Z) h :
  rows_typed o →
  accepted_tuple (PointList.dtype o) tup →
  PointList.mask_step o (g <$> PointList.data o) tup h =
    (Ret ((λ r, g r || negb (satisfies (PointList.dtype o).*1 r tup)) <$> PointList.data o), h).
Proof.
  intros Ho Htup.
  pose proof (mask_loop_run o [tup] Ho (proj2 (Forall_singleton _ _) Htup) g h) as Hloop.
  simpl in Hloop. unfold mbind, M_bind in Hloop.
  destruct (PointList.mask_step _ _ _ _) as [[m|e] h1]; [|done].
  injection Hloop as -> ->. do 2 f_equal. apply list_fmap_ext. intros _ r _.
  by rewrite andb_true_r.
Qed.

Lemma mask_loop_rejects o (good rest : list (string * list Z)) (bad : string * list Z) :
  rows_typed o →
  Forall (accepted_tuple (PointList.dtype o)) good →
  bad.1 ∉ (PointList.dtype o).*1 ∨ (length bad.2 ≠ 1 ∧ length bad.2 ≠ 2) →
  ∀ (g : row → bool) h,
    PointList.mask_loop o (g <$> PointList.data o) (good ++ bad :: rest) h =
      (Raise AssertionError, h).
Proof.
  intros Ho Hgood Hbad. induction Hgood as [|tup good Htup _ IH]; intros g h; simpl.
  - unfold mbind, M_bind, PointList.mask_step. unfold_M.
    destruct bad as [name args]. simpl in *.
    destruct args as [|val [|maxval [|]]]; simpl; try done.
    + destruct Hbad as [Hin|[? ?]]; [|done]. by rewrite bool_decide_false.
    + destruct Hbad as [Hin|[? ?]]; [|done]. by rewrite bool_decide_false.
  - unfold mbind, M_bind. rewrite (mask_step_run _ _ _ _ Ho Htup). apply IH.
Qed.

End filter_errors.

(** [get_subpointlist] asserts every tuple before it copies anything: when
    the tuples up to some tuple are acceptable and that tuple names no field
    of the dtype, or does not have two or three items, the call raises
    [AssertionError], no point list is created and none is changed. *)
Theorem get_subpointlist_rejects (h : PointList.heap) (self : loc) (o : PointList.t)
    (good rest : list (string * list Z)) (bad : string * list Z) :
  h !! self = Some o →
  rows_typed o →
  Forall (accepted_tuple (PointList.dtype o)) good →
  bad.1 ∉ (PointList.dtype o).*1 ∨ (length bad.2 ≠ 1 ∧ length bad.2 ≠ 2) →
  PointList.get_subpointlist self (good ++ bad :: rest) h = (Raise AssertionError, h).
Proof.
  intros Hs Ho Hgood Hbad.
  unfold PointList.get_subpointlist. unfold mbind at 1, M_bind at 1, PointList.get at 1.
  rewrite Hs.
  rewrite <-(const_fmap (λ _ : row, false) (PointList.data o) false) by done.
  unfold mbind at 1, M_bind at 1. by rewrite mask_loop_rejects.
Qed.

Lemma get_subpointlist_rejects_witness :
  PointList.get_subpointlist 0 [("x", [1%Z]); ("z", [0%Z])] [xy_pointlist [pt 1 2; pt 3 4]] =
    (Raise AssertionError, [xy_pointlist [pt 1 2; pt 3 4]]) ∧
  PointList.get_subpointlist 0 [("x", [1%Z; 2%Z; 3%Z])] [xy_pointlist [pt 1 2; pt 3 4]] =
    (Raise AssertionError, [xy_pointlist [pt 1 2; pt 3 4]]).
Proof.
  split.
  - apply (get_subpointlist_rejects [xy_pointlist [pt 1 2; pt 3 4]] 0
             (xy_pointlist [pt 1 2; pt 3 4]) [("x", [1%Z])] [] ("z", [0%Z]) eq_refl).
    + repeat constructor.
    + repeat constructor. exists 0, Int. split; reflexivity.
    + left. apply (bool_decide_unpack _). reflexivity.
  - apply (get_subpointlist_rejects [xy_pointlist [pt 1 2; pt 3 4]] 0
             (xy_pointlist [pt 1 2; pt 3 4]) [] [] ("x", [1%Z; 2%Z; 3%Z]) eq_refl).
    + repeat constructor.
    + constructor.
    + right. simpl. lia.
Defined.

Lemma nonzero_from_replicate (k n : nat) : nonzero_from k (replicate n false) = [].
Proof. revert k. induction n as [|n IH]; intros k; simpl; [done | apply IH]. Qed.

Lemma delete_from_nil {A : Type} (arr : list A) : ∀ k, delete_from k arr [] = arr.
Proof.
  induction arr as [|x arr IH]; intros k; simpl; [done|]. by rewrite IH.
Qed.

(** With no tuple at all [get_subpointlist] is [copy]: the same outcome and
    the same store, whether [copy] returns or raises. *)
Theorem get_subpointlist_no_tuple (h : PointList.heap) (self : loc) :
  PointList.get_subpointlist self [] h = PointList.copy self h.
Proof.
  unfold PointList.get_subpointlist. unfold mbind at 1, M_bind at 1.
  destruct (PointList.get self h) as [[o|e] h0] eqn:Hget.
  - assert (h0 = h ∧ h !! self = Some o) as [-> Hs].
    { unfold PointList.get in Hget. destruct (h !! self); by simplify_eq. }
    simpl. unfold mbind, M_bind. unfold mret at 1, M_ret at 1.
    destruct (PointList.copy self h) as [[new|e] h2] eqn:Hcopy; [|done].
    rewrite (copy_run _ _ _ Hs) in Hcopy.
    destruct (init_returns_allocated _ _ _ _ _ _ _ Hcopy) as [_ [c Hc]].
    rewrite (remove_points_run _ _ _ _ Hc). unfold np_delete, nonzero.
    rewrite nonzero_from_replicate. simpl. rewrite delete_from_nil.
    destruct c. unfold updated, PointList.set_length, PointList.set_data. simpl.
    rewrite Z.sub_0_r. by rewrite list_insert_id.
  - unfold PointList.copy, mbind, M_bind. by rewrite Hget.
Qed.

(** ** [PointListArray]: the cells of a grid and its copy *)

Section grid_cell_lemmas.
Implicit Types (h : PointList.heap) (g : PointListArray.t).

Lemma py_index_nonneg {A : Type} (l : list A) (i : Z) (x : A) :
  (0 ≤ i)%Z → l !! Z.to_nat i = Some x → py_index l i = Ret x.
Proof.
  intros Hi Hx. pose proof (lookup_lt_Some _ _ _ Hx) as Hlt. unfold py_index.
  destruct (Z.ltb_spec i 0); [lia|].
  destruct (Z.leb_spec 0 i); [|lia].
  destruct (Z.ltb_spec i (Z.of_nat (length l))); [|lia]. simpl. by rewrite Hx.
Qed.

Lemma grid_locs_lookup (base R C i : nat) :
  i < R → grid_locs base R C !! i = Some (seq (base + i * C) C).
Proof.
  intros Hi. unfold grid_locs. by rewrite list_lookup_fmap, lookup_seq_lt.
Qed.

Lemma get_pointlist_grid_locs g (base R C : nat) (i j : Z) :
  PointListArray.pointlists g = grid_locs base R C →
  (0 ≤ i < Z.of_nat R)%Z → (0 ≤ j < Z.of_nat C)%Z →
  PointListArray.get_pointlist g i j = Ret (base + Z.to_nat i * C + Z.to_nat j).
Proof.
  intros Hg Hi Hj. unfold PointListArray.get_pointlist. rewrite Hg.
  rewrite (py_index_nonneg _ i (seq (base + Z.to_nat i * C) C))
    by (lia || (apply grid_locs_lookup; lia)).
  simpl. apply py_index_nonneg; [lia|]. rewrite lookup_seq_lt by lia. done.
Qed.

Lemma grid_init_run (cs : list coordinate) (cube : DataCube) (dt : np_dtype)
    (fields : fields_t) h (R C : Z) :
  PointList.make_dtype cs dt = Ret fields →
  PointListArray.__init__ cs cube (ShapeTuple [SInt R; SInt C]) dt h =
    (Ret (PointListArray.mk cs cube dt (SInt R, SInt C)
            (grid_locs (length h) (Z.to_nat R) (Z.to_nat C))),
     h ++ replicate (Z.to_nat R * Z.to_nat C) (empty_pointlist cs cube dt fields)).
Proof.
  intros Hdt. unfold PointListArray.__init__. simpl.
  unfold mbind at 1 2 3, M_bind at 1 2 3. simpl.
  rewrite (comprehension_rows cs cube dt fields Hdt (seqZ 0 C) (seqZ 0 R) h).
  by rewrite !length_seqZ.
Qed.

Lemma copy_no_records h (self : loc) (o : PointList.t) :
  h !! self = Some o →
  PointList.data o = [] →
  ∃ e h', PointList.copy self h = (Raise e, h') ∧ ∀ l, l < length h → h' !! l = h !! l.
Proof.
  intros Hs Hempty. rewrite (copy_run _ _ _ Hs), init_run, Hempty.
  destruct (PointList.make_dtype _ _) as [fields|e]; [|by eauto].
  erewrite add_pointarray_run by (by rewrite lookup_app_r, Nat.sub_diag by lia).
  eexists _, _. split; [done|]. intros l Hl. by rewrite lookup_app_l.
Qed.

Lemma bind_ret {S A B : Type} (m : M S A) (f : A → M S B) (s s' : S) (a : A)
    (r : res B * S) :
  m s = (Ret a, s') → f a s' = r → (m ≫= f) s = r.
Proof. intros Hm Hf. unfold mbind, M_bind. by rewrite Hm. Qed.

Lemma bind_raise {S A B : Type} (m : M S A) (f : A → M S B) (s s' : S) (e : exn) :
  m s = (Raise e, s') → (m ≫= f) s = (Raise e, s').
Proof. intros Hm. unfold mbind, M_bind. by rewrite Hm. Qed.

Lemma grid_copy_raises g h (R C : Z) (fields : fields_t) (src : loc) (o : PointList.t) :
  PointListArray.shape g = (SInt R, SInt C) →
  (0 < R)%Z → (0 < C)%Z →
  PointList.make_dtype (PointListArray.coordinates g) (PointListArray.default_dtype g)
    = Ret fields →
  PointListArray.get_pointlist g 0 0 = Ret src →
  h !! src = Some o →
  PointList.data o = [] →
  ∃ e h', PointListArray.copy g h = (Raise e, h') ∧ ∀ l, l < length h → h' !! l = h !! l.
Proof.
  intros Hshape HR HC Hdt Hget Hsrc Hempty. pose proof (lookup_lt_Some _ _ _ Hsrc) as Hlt.
  destruct (copy_no_records
              (h ++ replicate (Z.to_nat R * Z.to_nat C)
                      (empty_pointlist (PointListArray.coordinates g)
                         (PointListArray.parentDataCube g) (PointListArray.default_dtype g)
                         fields)) src o) as (e & h' & Hcopy & Hkeep);
    [by rewrite lookup_app_l | done |].
  exists e, h'. split.
  - unfold PointListArray.copy. rewrite Hshape. cbn [fst snd].
    eapply bind_ret; [by apply grid_init_run|].
    cbn [PointListArray.shape fst snd].
    eapply bind_ret; [reflexivity|]. rewrite (seqZ_cons 0 R) by lia.
    apply bind_raise. cbn [for_each]. apply bind_raise.
    eapply bind_ret; [reflexivity|]. rewrite (seqZ_cons 0 C) by lia.
    cbn [for_each]. apply bind_raise.
    eapply bind_ret.
    { unfold lift.
      by rewrite (get_pointlist_grid_locs _ (length h) (Z.to_nat R) (Z.to_nat C))
        by (done || lia). }
    eapply bind_ret; [unfold lift; by rewrite Hget|].
    by apply bind_raise.
  - intros l Hl. rewrite Hkeep by (rewrite length_app; lia). by rewrite lookup_app_l.
Qed.

End grid_cell_lemmas.

(** On the grid the constructor builds for a shape [(R, C)], or for the
    dimensions of the parent when no shape is given, every cell [(i, j)] in
    range holds a point list of its own: [get_pointlist] returns a point list
    that did not exist before, which is empty and has the coordinates and
    the parent of the grid, and two cells that give the same point list are
    the same cell. *)
Theorem grid_cells (cs : list coordinate) (cube : DataCube) (dt : np_dtype)
    (fields : fields_t) (h : PointList.heap) (R C : Z) :
  PointList.make_dtype cs dt = Ret fields →
  PointListArray.__init__ cs cube ShapeNone dt h =
    PointListArray.__init__ cs cube (ShapeTuple [SInt (R_Nx cube); SInt (R_Ny cube)]) dt h ∧
  ∃ g h',
    PointListArray.__init__ cs cube (ShapeTuple [SInt R; SInt C]) dt h = (Ret g, h') ∧
    (∀ i j, (0 ≤ i < R)%Z → (0 ≤ j < C)%Z →
       ∃ l, PointListArray.get_pointlist g i j = Ret l ∧
            length h ≤ l ∧
            h' !! l = Some (empty_pointlist cs cube dt fields)) ∧
    (∀ i j i' j' l, (0 ≤ i < R)%Z → (0 ≤ j < C)%Z → (0 ≤ i' < R)%Z → (0 ≤ j' < C)%Z →
       PointListArray.get_pointlist g i j = Ret l →
       PointListArray.get_pointlist g i' j' = Ret l →
       i = i' ∧ j = j').
Proof.
  intros Hdt. split; [done|].
  eexists _, _. split; [by apply grid_init_run|]. split.
  - intros i j Hi Hj. eexists. split.
    + apply (get_pointlist_grid_locs _ (length h) (Z.to_nat R) (Z.to_nat C)); [done|lia..].
    + split; [lia|]. rewrite lookup_app_r by lia. apply lookup_replicate_2. nia.
  - intros i j i' j' l Hi Hj Hi' Hj'.
    rewrite !(get_pointlist_grid_locs _ (length h) (Z.to_nat R) (Z.to_nat C))
      by (done || lia).
    intros [= <-] [= Heq].
    assert (Z.to_nat i = Z.to_nat i') by nia.
    assert (Z.to_nat j = Z.to_nat j') by nia. lia.
Qed.

Lemma grid_cells_witness :
  ∃ g h',
    PointListArray.__init__ xy_coordinates sample_cube (ShapeTuple [SInt 3; SInt 4])
        (Scalar Float) [] = (Ret g, h') ∧
    ∃ l, PointListArray.get_pointlist g 2 3 = Ret l ∧ h' !! l = Some (xy_pointlist []).
Proof.
  destruct (grid_cells xy_coordinates sample_cube (Scalar Float) xy_dtype [] 3 4 eq_refl)
    as (_ & g & h' & Hrun & Hcell & _).
  exists g, h'. split; [exact Hrun|].
  destruct (Hcell 2%Z 3%Z) as (l & Hget & _ & Hl); [lia | lia |].
  exists l. split; [exact Hget | exact Hl].
Defined.

(** [copy] of a grid copies the cells one by one, the cell [(0, 0)] first,
    and [copy] of a point list without records fails.  So the copy of a grid
    with at least one cell whose first cell is empty raises, and no point
    list that existed before is changed; in particular a grid fresh from the
    constructor, with at least one cell, cannot be copied.  A grid without
    rows is copied to a grid without rows and the store is not touched. *)
Theorem grid_copy_fails :
  (∀ g h R C fields src o,
     PointListArray.shape g = (SInt R, SInt C) →
     (0 < R)%Z → (0 < C)%Z →
     PointList.make_dtype (PointListArray.coordinates g) (PointListArray.default_dtype g)
       = Ret fields →
     PointListArray.get_pointlist g 0 0 = Ret src →
     h !! src = Some o →
     PointList.data o = [] →
     ∃ e h', PointListArray.copy g h = (Raise e, h') ∧
             ∀ l, l < length h → h' !! l = h !! l) ∧
  (∀ cs cube dt fields h R C,
     PointList.make_dtype cs dt = Ret fields →
     (0 < R)%Z → (0 < C)%Z →
     ∃ g h1 e h2,
       PointListArray.__init__ cs cube (ShapeTuple [SInt R; SInt C]) dt h = (Ret g, h1) ∧
       PointListArray.copy g h1 = (Raise e, h2)) ∧
  (∀ g h R x,
     PointListArray.shape g = (SInt R, x) →
     (R ≤ 0)%Z →
     PointListArray.copy g h =
       (Ret (PointListArray.mk (PointListArray.coordinates g) (PointListArray.parentDataCube g)
               (PointListArray.default_dtype g) (SInt R, x) []), h)).
Proof.
  split; [|split].
  - intros. by eapply grid_copy_raises.
  - intros cs cube dt fields h R C Hdt HR HC.
    eexists _, _. rewrite (grid_init_run _ _ _ _ _ _ _ Hdt).
    destruct (grid_copy_raises
                (PointListArray.mk cs cube dt (SInt R, SInt C)
                   (grid_locs (length h) (Z.to_nat R) (Z.to_nat C)))
                (h ++ replicate (Z.to_nat R * Z.to_nat C) (empty_pointlist cs cube dt fields))
                R C fields (length h) (empty_pointlist cs cube dt fields))
      as (e & h2 & Hcopy & _); try done.
    + rewrite (get_pointlist_grid_locs _ (length h) (Z.to_nat R) (Z.to_nat C)) by (done || lia).
      do 2 f_equal. simpl. lia.
    + rewrite lookup_app_r by lia. apply lookup_replicate_2. nia.
    + by exists e, h2.
  - intros g h R x Hshape HR. unfold PointListArray.copy. rewrite Hshape. cbn [fst snd].
    eapply bind_ret.
    { unfold PointListArray.__init__.
      eapply bind_ret; [reflexivity|]. cbn [fst snd].
      eapply bind_ret; [reflexivity|]. rewrite (seqZ_nil 0 R) by lia.
      eapply bind_ret; reflexivity. }
    cbn [PointListArray.shape fst snd].
    eapply bind_ret; [reflexivity|]. rewrite (seqZ_nil 0 R) by lia.
    eapply bind_ret; reflexivity.
Qed.

Lemma grid_copy_fails_witness :
  ∃ e h',
    PointListArray.copy
      (PointListArray.mk xy_coordinates sample_cube (Scalar Float) (SInt 1, SInt 2)
         (grid_locs 0 1 2))
      [xy_pointlist []; xy_pointlist [pt 1 2]] = (Raise e, h').
Proof.
  destruct (proj1 grid_copy_fails
              (PointListArray.mk xy_coordinates sample_cube (Scalar Float) (SInt 1, SInt 2)
                 (grid_locs 0 1 2))
              [xy_pointlist []; xy_pointlist [pt 1 2]] 1%Z 2%Z xy_dtype 0 (xy_pointlist []))
    as (e & h' & Hcopy & _); try reflexivity.
  exists e, h'. exact Hcopy.
Defined.

(** ** The length of the records *)

Section arity.
Implicit Types (h : PointList.heap) (o : PointList.t) (self : loc).
Context (I : PointList.t → Prop).

Lemma keeps_unchanged {A : Type} (m : M PointList.heap A) :
  (∀ h, (m h).2 = h) → keeps I m.
Proof. intros Hm h Hh. by rewrite Hm. Qed.

Lemma keeps_bind {A B : Type} (m : M PointList.heap A) (f : A → M PointList.heap B) :
  keeps I m → (∀ a, keeps I (f a)) → keeps I (m ≫= f).
Proof.
  intros Hm Hf h Hh. unfold mbind, M_bind. specialize (Hm h Hh).
  destruct (m h) as [[a|e] h']; simpl in *; [by apply Hf | done].
Qed.

Lemma keeps_get self : keeps I (PointList.get self).
Proof.
  apply keeps_unchanged. intros h. unfold PointList.get. by destruct (h !! self).
Qed.

Lemma keeps_assert (b : bool) : keeps I (assert (S := PointList.heap) b).
Proof. apply keeps_unchanged. intros h. by destruct b. Qed.

Lemma keeps_alloc o : I o → keeps I (PointList.alloc o).
Proof.
  intros Ho h Hh. unfold PointList.alloc. simpl.
  apply Forall_app_2; [done | by apply Forall_singleton].
Qed.

Lemma keeps_for_each {A : Type} (l : list A) (body : A → M PointList.heap ()) :
  (∀ x, keeps I (body x)) → keeps I (for_each l body).
Proof.
  intros Hbody. induction l as [|x l IH]; simpl.
  - by apply keeps_unchanged.
  - apply keeps_bind; [apply Hbody | by intros _].
Qed.

Lemma keeps_allocated_self {A : Type} self (k : PointList.t → M PointList.heap A) :
  (∀ h o, h !! self = Some o → Forall I h → Forall I ((PointList.get self ≫= k) h).2) →
  keeps I (PointList.get self ≫= k).
Proof.
  intros Hk h Hh. destruct (h !! self) as [o|] eqn:Hs; [by eapply Hk|].
  unfold mbind, M_bind, PointList.get. by rewrite Hs.
Qed.

End arity.

Section arity_methods.
Implicit Types (h : PointList.heap) (o : PointList.t) (self : loc).

Lemma arity_inv_lookup h self o : Forall arity_inv h → h !! self = Some o → arity_inv o.
Proof. intros Hh Hs. exact (Forall_lookup_1 _ _ _ _ Hh Hs). Qed.

Lemma Forall_delete_from {A : Type} (P : A → Prop) (arr : list A) (idxs : list nat) :
  Forall P arr → ∀ k, Forall P (delete_from k arr idxs).
Proof.
  induction 1 as [|x arr Hx _ IH]; intros k; simpl; [constructor|].
  case_bool_decide; [apply IH | constructor; [done | apply IH]].
Qed.

Lemma keeps_arity_add_point self point : keeps arity_inv (PointList.add_point self point).
Proof.
  apply keeps_allocated_self. intros h o Hs Hh.
  fold (PointList.add_point self point). rewrite (add_point_run _ _ _ _ Hs).
  destruct (_ =? _); [|done]. destruct (np_array _ _) as [r|] eqn:Hr; [|done]. simpl.
  apply Forall_insert; [done|].
  pose proof (arity_inv_lookup _ _ _ Hh Hs) as Ho. unfold arity_inv in *. simpl.
  apply Forall_app_2; [done|]. apply Forall_singleton.
  apply np_array_Ret in Hr. by apply coerce_fields_length in Hr as [_ ?].
Qed.

Lemma keeps_arity_add_pointarray self batch :
  keeps arity_inv (PointList.add_pointarray self batch).
Proof.
  unfold PointList.add_pointarray.
  apply keeps_bind; [apply keeps_get|]. intros o.
  apply keeps_bind; [by apply keeps_unchanged|]. intros first.
  apply keeps_bind; [apply keeps_assert|]. intros _.
  apply keeps_for_each, keeps_arity_add_point.
Qed.

Lemma keeps_arity_init cs cube data dt : keeps arity_inv (PointList.__init__ cs cube data dt).
Proof.
  unfold PointList.__init__.
  apply keeps_bind; [by apply keeps_unchanged|]. intros fields.
  apply keeps_bind; [apply keeps_alloc; constructor|]. intros self.
  destruct data as [batch|]; [|by apply keeps_unchanged].
  apply keeps_bind; [apply keeps_arity_add_pointarray|]. intros _. by apply keeps_unchanged.
Qed.

Lemma keeps_arity_copy self : keeps arity_inv (PointList.copy self).
Proof.
  unfold PointList.copy.
  apply keeps_bind; [apply keeps_get|]. intros o. apply keeps_arity_init.
Qed.

Lemma keeps_arity_add_pointlist self other :
  keeps arity_inv (PointList.add_pointlist self other).
Proof.
  apply keeps_allocated_self. intros h o Hs Hh.
  fold (PointList.add_pointlist self other).
  destruct (h !! other) as [p|] eqn:Ho.
  - rewrite (add_pointlist_run _ _ _ _ _ Hs Ho).
    destruct (dtype_eqb _ _) eqn:Heq; [|done]. simpl.
    apply dtype_eqb_eq in Heq. injection Heq as Heq.
    apply Forall_insert; [done|].
    pose proof (arity_inv_lookup _ _ _ Hh Hs). pose proof (arity_inv_lookup _ _ _ Hh Ho) as Hp.
    unfold arity_inv in *. simpl. apply Forall_app_2; [done|]. by rewrite Heq.
  - unfold PointList.add_pointlist, mbind, M_bind, PointList.get. by rewrite Hs, Ho.
Qed.

Lemma keeps_arity_sort self coordinate order :
  keeps arity_inv (PointList.sort self coordinate order).
Proof.
  apply keeps_allocated_self. intros h o Hs Hh.
  fold (PointList.sort self coordinate order). rewrite (sort_run _ _ _ _ _ Hs).
  pose proof (arity_inv_lookup _ _ _ Hh Hs) as Ho. unfold arity_inv in Ho.
  destruct (field_index _ _) as [k|]; [|done].
  repeat case_bool_decide; simpl; try done; (apply Forall_insert; [done|]);
    unfold arity_inv; simpl; by rewrite ?reverse_Permutation, np_sort_perm.
Qed.

Lemma keeps_arity_remove_points self mask :
  keeps arity_inv (PointList.remove_points self mask).
Proof.
  apply keeps_allocated_self. intros h o Hs Hh.
  fold (PointList.remove_points self mask). rewrite (remove_points_run _ _ _ _ Hs).
  unfold np_delete. destruct (forallb _ _); [|done]. simpl.
  apply Forall_insert; [done|].
  pose proof (arity_inv_lookup _ _ _ Hh Hs) as Ho. unfold arity_inv in *. simpl.
  by apply Forall_delete_from.
Qed.

Lemma keeps_arity_get_subpointlist self coords_vals :
  keeps arity_inv (PointList.get_subpointlist self coords_vals).
Proof.
  unfold PointList.get_subpointlist.
  apply keeps_bind; [apply keeps_get|]. intros o.
  apply keeps_bind; [apply keeps_unchanged; intros h; apply mask_loop_heap|].
  intros deletemask.
  apply keeps_bind; [apply keeps_arity_copy|]. intros new_pointlist.
  apply keeps_bind; [apply keeps_arity_remove_points|]. intros _. by apply keeps_unchanged.
Qed.

End arity_methods.

(** In a store where every record of every point list has as many items as
    the dtype of its point list has fields, the constructor and every method
    leave it so, whether they return or raise. *)
Theorem arity_invariant (h : PointList.heap) :
  Forall arity_inv h →
  (∀ cs cube data dt, Forall arity_inv (PointList.__init__ cs cube data dt h).2) ∧
  (∀ self point, Forall arity_inv (PointList.add_point self point h).2) ∧
  (∀ self batch, Forall arity_inv (PointList.add_pointarray self batch h).2) ∧
  (∀ self other, Forall arity_inv (PointList.add_pointlist self other h).2) ∧
  (∀ self coordinate order, Forall arity_inv (PointList.sort self coordinate order h).2) ∧
  (∀ self coords_vals, Forall arity_inv (PointList.get_subpointlist self coords_vals h).2) ∧
  (∀ self mask, Forall arity_inv (PointList.remove_points self mask h).2) ∧
  (∀ self, Forall arity_inv (PointList.copy self h).2).
Proof.
  intros Hh. repeat split; intros.
  - by apply keeps_arity_init.
  - by apply keeps_arity_add_point.
  - by apply keeps_arity_add_pointarray.
  - by apply keeps_arity_add_pointlist.
  - by apply keeps_arity_sort.
  - by apply keeps_arity_get_subpointlist.
  - by apply keeps_arity_remove_points.
  - by apply keeps_arity_copy.
Qed.

Lemma arity_invariant_witness :
  Forall arity_inv [xy_pointlist [pt 1 2; pt 3 4]; xy_pointlist [pt 5 6]] ∧
  Forall arity_inv
    (PointList.add_pointlist 0 1 [xy_pointlist [pt 1 2; pt 3 4]; xy_pointlist [pt 5 6]]).2 ∧
  Forall arity_inv
    (PointList.add_pointarray 0 [pt 7 8; [VNum 9]]
       [xy_pointlist [pt 1 2; pt 3 4]; xy_pointlist [pt 5 6]]).2.
Proof.
  assert (H0 : Forall arity_inv [xy_pointlist [pt 1 2; pt 3 4]; xy_pointlist [pt 5 6]])
    by (repeat constructor).
  destruct (arity_invariant _ H0) as (_ & _ & Hbatch & Hmerge & _).
  split; [exact H0|]. split; [apply Hmerge | apply Hbatch].
Defined.

(** ** [PointListArray.copy] of a grid whose cells hold records *)

Section grid_copy.
Implicit Types (h : PointList.heap) (g : PointListArray.t).

(** A loop all of whose turns return establishes at its end what each turn
    carries over from the turn before. *)
Lemma for_each_inv {A : Type} (l : list A) (body : A → M PointList.heap ()) :
  ∀ (P : nat → PointList.heap → Prop),
  (∀ k x h, l !! k = Some x → P k h → ∃ h', body x h = (Ret (), h') ∧ P (S k) h') →
  ∀ h, P 0 h → ∃ h', for_each l body h = (Ret (), h') ∧ P (length l) h'.
Proof.
  induction l as [|x l IH]; intros P Hstep h HP; simpl.
  - by exists h.
  - destruct (Hstep 0 x h eq_refl HP) as (h1 & Hx & HP1).
    destruct (IH (λ k, P (S k)) (λ k y, Hstep (S k) y) h1 HP1) as (h2 & Hl & HP2).
    exists h2. split; [|done]. by eapply bind_ret.
Qed.

Lemma bind_bind_ret {S A B D : Type} (m : M S A) (f : A → M S B) (k : B → M S D)
    (s s' : S) (b : B) :
  (m ≫= f) s = (Ret b, s') → (m ≫= λ x, f x ≫= k) s = k b s'.
Proof.
  unfold mbind, M_bind. destruct (m s) as [[a|e] s1]; [|done]. by intros ->.
Qed.

Context (g : PointListArray.t) (h : PointList.heap) (R C : nat) (fields : fields_t).
Hypothesis Hshape : PointListArray.shape g = (SInt (Z.of_nat R), SInt (Z.of_nat C)).
Hypothesis Hdt :
  PointList.make_dtype (PointListArray.coordinates g) (PointListArray.default_dtype g)
    = Ret fields.
Hypothesis Hcells : ∀ i j, i < R → j < C →
  ∃ s o, PointListArray.get_pointlist g (Z.of_nat i) (Z.of_nat j) = Ret s ∧
         h !! s = Some o ∧ good_cell fields o.

Let e : PointList.t :=
  empty_pointlist (PointListArray.coordinates g) (PointListArray.parentDataCube g)
    (PointListArray.default_dtype g) fields.

Let new : PointListArray.t :=
  PointListArray.mk (PointListArray.coordinates g) (PointListArray.parentDataCube g)
    (PointListArray.default_dtype g) (SInt (Z.of_nat R), SInt (Z.of_nat C))
    (grid_locs (length h) R C).

(** The store after [t] cells have been copied, row after row. *)
Let copied_upto (t : nat) (ht : PointList.heap) : Prop :=
  length ht = length h + R * C + t ∧
  (∀ l, l < length h → ht !! l = h !! l) ∧
  (∀ i j, i < R → j < C →
     if decide (i * C + j < t) then
       ∃ s o, PointListArray.get_pointlist g (Z.of_nat i) (Z.of_nat j) = Ret s ∧
              h !! s = Some o ∧
              ht !! (length h + (i * C + j)) = Some (filled_cell e o)
     else ht !! (length h + (i * C + j)) = Some e).

Lemma copy_cell_step (i j : nat) (ht : PointList.heap) :
  i < R → j < C →
  copied_upto (i * C + j) ht →
  ∃ ht',
    (curr_pointlist ← lift (PointListArray.get_pointlist new (Z.of_nat i) (Z.of_nat j));
     src ← lift (PointListArray.get_pointlist g (Z.of_nat i) (Z.of_nat j));
     c ← PointList.copy src;
     PointList.add_pointlist curr_pointlist c) ht = (Ret (), ht') ∧
    copied_upto (S (i * C + j)) ht'.
Proof using Hcells.
  intros Hi Hj (Hlen & Hold & Hnew).
  destruct (Hcells i j Hi Hj) as (s & o & Hget & Hs & Hne & Ho & Hfields & Hmk).
  pose proof (lookup_lt_Some _ _ _ Hs) as Hslt.
  assert (Hcurr : ht !! (length h + (i * C + j)) = Some e).
  { specialize (Hnew i j Hi Hj). by rewrite decide_False in Hnew by lia. }
  assert (Hsrc : ht !! s = Some o) by (by rewrite Hold).
  eexists. split.
  - eapply bind_ret.
    { unfold lift. by rewrite (get_pointlist_grid_locs new (length h) R C) by (done || lia). }
    eapply bind_ret; [unfold lift; by rewrite Hget|].
    eapply bind_ret; [by apply copy_rows|].
    rewrite !Nat2Z.id, <-Nat.add_assoc.
    rewrite (add_pointlist_run _ _ _ e
               (PointList.mk (PointList.coordinates o) (PointList.parentDataCube o)
                  (Struct (PointList.dtype o)) (Z.of_nat (length (PointList.data o)))
                  (PointList.dtype o) (PointList.data o)));
      [|by apply lookup_app_l_Some|by rewrite lookup_app_r, Nat.sub_diag by lia].
    subst e. simpl PointList.dtype. rewrite Hfields.
    by rewrite (proj2 (dtype_eqb_eq _ _) eq_refl).
  - split; [|split].
    + rewrite length_insert, length_app. simpl. lia.
    + intros l Hl. rewrite list_lookup_insert_ne, lookup_app_l by lia. by apply Hold.
    + intros i' j' Hi' Hj'. specialize (Hnew i' j' Hi' Hj').
      assert (i * C + j < R * C) by nia. assert (i' * C + j' < R * C) by nia.
      destruct (decide (i' * C + j' = i * C + j)) as [Heq|Hneq].
      * assert (i' = i) as -> by nia. assert (j' = j) as -> by lia.
        rewrite decide_True by lia. exists s, o. split; [done|]. split; [done|].
        rewrite list_lookup_insert_eq by (rewrite length_app; simpl; lia). done.
      * rewrite list_lookup_insert_ne, lookup_app_l by lia.
        destruct (decide (i' * C + j' < i * C + j)).
        -- by rewrite decide_True by lia.
        -- by rewrite decide_False by lia.
Qed.

Lemma copy_row_step (i : nat) (ht : PointList.heap) :
  i < R →
  copied_upto (i * C) ht →
  ∃ ht',
    (inner ← lift (py_range (PointListArray.shape new).2);
     for_each inner (λ j,
       curr_pointlist ← lift (PointListArray.get_pointlist new (Z.of_nat i) j);
       src ← lift (PointListArray.get_pointlist g (Z.of_nat i) j);
       c ← PointList.copy src;
       PointList.add_pointlist curr_pointlist c)) ht = (Ret (), ht') ∧
    copied_upto (S i * C) ht'.
Proof using Hcells.
  intros Hi Hinv.
  destruct (for_each_inv (seqZ 0 (Z.of_nat C))
              (λ j,
                 curr_pointlist ← lift (PointListArray.get_pointlist new (Z.of_nat i) j);
                 src ← lift (PointListArray.get_pointlist g (Z.of_nat i) j);
                 c ← PointList.copy src;
                 PointList.add_pointlist curr_pointlist c)
              (λ j ht, j ≤ C ∧ copied_upto (i * C + j) ht)) with (h := ht)
    as (ht' & Hrun & _ & Hinv').
  - intros k x h0 Hk [_ Hk0]. apply lookup_seqZ in Hk as [-> Hk]. rewrite Z.add_0_l.
    destruct (copy_cell_step i k h0) as (h1 & Hstep & Hinv1); [done | lia | done |].
    exists h1. split; [done|]. split; [lia|]. by rewrite Nat.add_succ_r.
  - split; [lia|]. by rewrite Nat.add_0_r.
  - exists ht'. split.
    + eapply bind_ret; [reflexivity|]. done.
    + rewrite length_seqZ, Nat2Z.id in Hinv'.
      by replace (S i * C) with (i * C + C) by lia.
Qed.

Lemma copy_rows_loop :
  ∃ h',
    (outer ← lift (py_range (PointListArray.shape new).1);
     for_each outer (λ i,
       inner ← lift (py_range (PointListArray.shape new).2);
       for_each inner (λ j,
         curr_pointlist ← lift (PointListArray.get_pointlist new i j);
         src ← lift (PointListArray.get_pointlist g i j);
         c ← PointList.copy src;
         PointList.add_pointlist curr_pointlist c)))
      (h ++ replicate (R * C) e) = (Ret (), h') ∧
    copied_upto (R * C) h'.
Proof using Hcells.
  destruct (for_each_inv (seqZ 0 (Z.of_nat R))
              (λ i,
                 inner ← lift (py_range (PointListArray.shape new).2);
                 for_each inner (λ j,
                   curr_pointlist ← lift (PointListArray.get_pointlist new i j);
                   src ← lift (PointListArray.get_pointlist g i j);
                   c ← PointList.copy src;
                   PointList.add_pointlist curr_pointlist c))
              (λ i ht, i ≤ R ∧ copied_upto (i * C) ht))
    with (h := h ++ replicate (R * C) e) as (h' & Hrun & _ & Hinv).
  - intros k x h0 Hk [_ Hk0]. apply lookup_seqZ in Hk as [-> Hk]. rewrite Z.add_0_l.
    destruct (copy_row_step k h0) as (h1 & Hstep & Hinv1); [lia | done |].
    exists h1. split; [done|]. split; [lia | done].
  - split; [lia|]. simpl. split; [|split].
    + rewrite length_app, length_replicate. lia.
    + intros l Hl. by rewrite lookup_app_l.
    + intros i j Hi Hj. rewrite decide_False by lia.
      rewrite lookup_app_r by lia. apply lookup_replicate_2. nia.
  - exists h'. split.
    + eapply bind_ret; [reflexivity|]. done.
    + by rewrite length_seqZ, Nat2Z.id in Hinv.
Qed.

Lemma grid_copy_run :
  ∃ h', PointListArray.copy g h = (Ret new, h') ∧ copied_upto (R * C) h'.
Proof using Hshape Hdt Hcells.
  destruct copy_rows_loop as (h' & Hloop & Hinv). exists h'. split; [|done].
  unfold PointListArray.copy. rewrite Hshape. cbn [fst snd].
  eapply bind_ret.
  { rewrite (grid_init_run _ _ _ _ _ _ _ Hdt), !Nat2Z.id. reflexivity. }
  exact (bind_bind_ret _ _ (λ _, mret new) _ _ _ Hloop).
Qed.

End grid_copy.

(** [copy] of a grid succeeds when every cell of the grid holds at least
    one record and was built from [(name, dtype)] coordinates with the dtype
    of the grid.  It returns a new grid of the same shape in which every cell
    is a new point list that holds the records of the cell it was copied
    from, with a counter equal to their number; no point list that existed
    before is changed, the cells of the source included. *)
Theorem grid_copy_spec (g : PointListArray.t) (h : PointList.heap) (R C : nat)
    (fields : fields_t) :
  PointListArray.shape g = (SInt (Z.of_nat R), SInt (Z.of_nat C)) →
  PointList.make_dtype (PointListArray.coordinates g) (PointListArray.default_dtype g)
    = Ret fields →
  (∀ i j, i < R → j < C →
     ∃ s o, PointListArray.get_pointlist g (Z.of_nat i) (Z.of_nat j) = Ret s ∧
            h !! s = Some o ∧ good_cell fields o) →
  ∃ g' h',
    PointListArray.copy g h = (Ret g', h') ∧
    PointListArray.shape g' = PointListArray.shape g ∧
    (∀ l, l < length h → h' !! l = h !! l) ∧
    (∀ i j, i < R → j < C →
       ∃ s o l c,
         PointListArray.get_pointlist g (Z.of_nat i) (Z.of_nat j) = Ret s ∧
         h !! s = Some o ∧
         PointListArray.get_pointlist g' (Z.of_nat i) (Z.of_nat j) = Ret l ∧
         length h ≤ l ∧
         h' !! l = Some c ∧
         PointList.data c = PointList.data o ∧
         PointList.length c = Z.of_nat (length (PointList.data o)) ∧
         PointList.dtype c = fields).
Proof.
  intros Hshape Hdt Hcells.
  destruct (grid_copy_run g h R C fields Hshape Hdt Hcells) as (h' & Hrun & Hlen & Hold & Hnew).
  eexists _, h'. split; [exact Hrun|]. split; [by rewrite Hshape|]. split; [done|].
  intros i j Hi Hj. specialize (Hnew i j Hi Hj). rewrite decide_True in Hnew by nia.
  destruct Hnew as (s & o & Hget & Hs & Hcell).
  eexists s, o, (length h + (i * C + j)), _. split; [done|]. split; [done|].
  split.
  { rewrite (get_pointlist_grid_locs _ (length h) R C) by (done || lia).
    rewrite !Nat2Z.id. f_equal. lia. }
  split; [lia|]. split; [exact Hcell|]. simpl. split; [done|]. split; [lia | done].
Qed.

Lemma grid_copy_spec_witness :
  ∃ g' h',
    PointListArray.copy
      (PointListArray.mk xy_coordinates sample_cube (Scalar Float) (SInt 1, SInt 2)
         (grid_locs 0 1 2))
      [xy_pointlist [pt 1 2]; xy_pointlist [pt 3 4; pt 5 6]] = (Ret g', h') ∧
    ∃ l c, PointListArray.get_pointlist g' 0 1 = Ret l ∧
           h' !! l = Some c ∧
           PointList.data c = [pt 3 4; pt 5 6] ∧
           PointList.length c = 2%Z.
Proof.
  destruct (grid_copy_spec
              (PointListArray.mk xy_coordinates sample_cube (Scalar Float) (SInt 1, SInt 2)
                 (grid_locs 0 1 2))
              [xy_pointlist [pt 1 2]; xy_pointlist [pt 3 4; pt 5 6]] 1 2 xy_dtype
              eq_refl eq_refl)
    as (g' & h' & Hrun & _ & _ & Hcells).
  - intros [|i] [|[|j]] Hi Hj; try lia.
    + exists 0, (xy_pointlist [pt 1 2]). split; [reflexivity|]. split; [reflexivity|].
      split; [discriminate|]. split; [repeat constructor|]. split; reflexivity.
    + exists 1, (xy_pointlist [pt 3 4; pt 5 6]). split; [reflexivity|].
      split; [reflexivity|].
      split; [discriminate|]. split; [repeat constructor|]. split; reflexivity.
  - exists g', h'. split; [exact Hrun|].
    destruct (Hcells 0 1) as (s & o & l & c & Hs & Ho & Hl & _ & Hc & Hdata & Hlen & _);
      [lia | lia |].
    exists l, c. split; [exact Hl|]. split; [exact Hc|].
    assert (s = 1) as -> by (by injection Hs).
    assert (o = xy_pointlist [pt 3 4; pt 5 6]) as -> by (by injection Ho).
    split; [exact Hdata | exact Hlen].
Defined.
